(** * CenterNet preprocessing ops: a shallow embedding of [preprocess_ops.py]

    The development follows the source file function by function:
    - [Dtype]: the values of the Gaussian kernel and of the heatmap, as
      exact reals extended with the two infinities and NaN.  Rounding and
      overflow are not modelled there, and zero is unsigned (a zero divisor
      counts as [+0], which is the zero the source produces:
      [2 * 0 ** 2]).
    - [Int32]: the int32 scalars of the rasterizer, with wrap-around.
    - [tensor]: dense tensors as a shape and a cell function, with the
      TensorFlow ops the source calls.  An op fails where the TensorFlow
      kernel raises: [tf.range] requires [start <= limit], [tf.split]
      rejects a negative size, [tf.tensor_scatter_nd_update] rejects an
      index outside the tensor, [tf.zeros] a negative dimension; a slice
      reads a negative bound from the end.
    - [_gaussian_penalty], [cartesian_product], [draw_gaussian],
      [get_image_shape] and [pad_max_instances], each translated from its
      Python body.
    - [F32], [F64] and [value]: IEEE binary32 and binary64 numbers and the
      dynamically typed operands ([int], [float], float32 tensor) of
      [_smallest_positive_root] and [gaussian_radius], which are translated
      with the rounding of every operation and the conversions between the
      two formats. *)

From Stdlib Require Import Reals Lra Psatz ZArith List Lia Bool Arith.
From Stdlib Require Import SpecFloat.
Import ListNotations.

Set Implicit Arguments.

(* ================================================================== *)
(** ** Values of a floating dtype *)

Module Dtype.

Inductive tfloat : Type :=
| Fin (r : R)
| PInf
| NInf
| NaN.

(** Sign of a real, as a three-way comparison with zero. *)
Definition Rcmp0 (r : R) : comparison :=
  match total_order_T r 0 with
  | inleft (left _) => Lt
  | inleft (right _) => Eq
  | inright _ => Gt
  end.

(** [by_sign r pos neg]: the result of an operation whose sign follows the
    sign of [r] and which is invalid at zero. *)
Definition by_sign (r : R) (pos neg : tfloat) : tfloat :=
  match Rcmp0 r with
  | Gt => pos
  | Lt => neg
  | Eq => NaN
  end.

Definition fneg (a : tfloat) : tfloat :=
  match a with
  | Fin r => Fin (- r)
  | PInf => NInf
  | NInf => PInf
  | NaN => NaN
  end.

Definition fadd (a b : tfloat) : tfloat :=
  match a, b with
  | NaN, _ | _, NaN => NaN
  | Fin x, Fin y => Fin (x + y)
  | PInf, NInf | NInf, PInf => NaN
  | PInf, _ | _, PInf => PInf
  | NInf, _ | _, NInf => NInf
  end.

Definition fsub (a b : tfloat) : tfloat := fadd a (fneg b).

Definition fmul (a b : tfloat) : tfloat :=
  match a, b with
  | NaN, _ | _, NaN => NaN
  | Fin x, Fin y => Fin (x * y)
  | Fin x, PInf | PInf, Fin x => by_sign x PInf NInf
  | Fin x, NInf | NInf, Fin x => by_sign x NInf PInf
  | PInf, PInf | NInf, NInf => PInf
  | PInf, NInf | NInf, PInf => NInf
  end.

(** Division: [x / 0] is an infinity of the sign of [x], and [0 / 0] is NaN. *)
Definition fdiv (a b : tfloat) : tfloat :=
  match a, b with
  | NaN, _ | _, NaN => NaN
  | Fin x, Fin y =>
      if Req_dec_T y 0 then by_sign x PInf NInf else Fin (x / y)
  | Fin _, (PInf | NInf) => Fin 0
  | PInf, Fin y => match Rcmp0 y with Lt => NInf | _ => PInf end
  | NInf, Fin y => match Rcmp0 y with Lt => PInf | _ => NInf end
  | (PInf | NInf), (PInf | NInf) => NaN
  end.

(** [x ** 2] *)
Definition fpow2 (a : tfloat) : tfloat := fmul a a.

(** [tf.math.exp] *)
Definition fexp (a : tfloat) : tfloat :=
  match a with
  | Fin x => Fin (exp x)
  | PInf => PInf
  | NInf => Fin 0
  | NaN => NaN
  end.

(** [tf.cast] of an integer to the floating dtype. *)
Definition of_int (z : Z) : tfloat := Fin (IZR z).

End Dtype.
Import Dtype.

(* ================================================================== *)
(** ** 32-bit integers

    [tf.int32] values are integers in [[-2^31, 2^31)]; arithmetic wraps. *)

Module Int32.

Definition modulus : Z := 2 ^ 32.
Definition half : Z := 2 ^ 31.

Definition in_range (z : Z) : Prop := (- half <= z < half)%Z.

Definition wrap (z : Z) : Z := ((z + half) mod modulus - half)%Z.

Definition add (a b : Z) : Z := wrap (a + b).
Definition sub (a b : Z) : Z := wrap (a - b).
Definition mul (a b : Z) : Z := wrap (a * b).

End Int32.

(* ================================================================== *)
(** ** Failures

    The ways a TensorFlow op used by the source can raise. *)

Inductive error : Type :=
| NegativeDimension      (* a requested shape has a negative entry *)
| IndexOutOfBounds       (* an index or axis outside the tensor *)
| ShapeMismatch          (* operand shapes that do not fit together *)
| BadSplit               (* invalid [size_splits] *)
| BadReshape             (* the element count does not fit the new shape *)
| InvalidRange           (* [tf.range] with [limit < start] *)
| InvalidDtype           (* an op applied to a dtype it is not defined for *)
| ZeroDivision           (* Python's [ZeroDivisionError] *)
| Overflow.              (* Python's [OverflowError] *)

Inductive result (A : Type) : Type :=
| Ok (a : A)
| Err (e : error).

Arguments Ok {A} a.
Arguments Err {A} e.

Definition bind {A B : Type} (m : result A) (k : A -> result B) : result B :=
  match m with
  | Ok a => k a
  | Err e => Err e
  end.

Notation "x <- m ;; k" := (bind m (fun x => k))
  (at level 61, m at next level, right associativity).
Notation "' pat <- m ;; k" := (bind m (fun x => match x with pat => k end))
  (at level 61, pat pattern, m at next level, right associativity).

Definition guard (b : bool) (e : error) : result unit :=
  if b then Ok tt else Err e.

(* ================================================================== *)
(** ** Dense tensors

    A tensor is its shape together with the element at each multi-index.
    Elements are laid out in row-major order: [ravel] and [unravel] convert
    between a multi-index and the flat position, which is what [tf.reshape]
    preserves. *)

Record tensor (A : Type) : Type := mkTensor {
  shape : list nat;
  get : list nat -> A
}.

Arguments mkTensor {A} shape get.

Definition prod (dims : list nat) : nat := fold_right Nat.mul 1 dims.

Definition rank {A} (t : tensor A) : nat := length (shape t).

Definition numel {A} (t : tensor A) : nat := prod (shape t).

Fixpoint ravel (dims idx : list nat) : nat :=
  match dims, idx with
  | _ :: ds, i :: rest => i * prod ds + ravel ds rest
  | _, _ => 0
  end.

Fixpoint unravel (dims : list nat) (flat : nat) : list nat :=
  match dims with
  | [] => []
  | _ :: ds => flat / prod ds :: unravel ds (flat mod prod ds)
  end.

(** A 1-D tensor from a Python list; [d] fills the positions no valid index
    reaches. *)
Definition of_list {A} (d : A) (l : list A) : tensor A :=
  mkTensor [length l] (fun idx => nth (nth 0 idx 0) l d).

(** The elements of a 1-D tensor, in order. *)
Definition to_list {A} (t : tensor A) : list A :=
  map (fun i => get t [i]) (seq 0 (nth 0 (shape t) 0)).

(** The rows of a 2-D tensor, in order. *)
Definition to_rows {A} (t : tensor A) : list (list A) :=
  map (fun r => map (fun c => get t [r; c]) (seq 0 (nth 1 (shape t) 0)))
      (seq 0 (nth 0 (shape t) 0)).

Definition list_eqb {A} (eqb : A -> A -> bool) : list A -> list A -> bool :=
  fix go (l1 l2 : list A) : bool :=
    match l1, l2 with
    | [], [] => true
    | x :: r1, y :: r2 => eqb x y && go r1 r2
    | _, _ => false
    end.

Definition shape_eqb : list nat -> list nat -> bool := list_eqb Nat.eqb.

(** [tf.range(start, limit)] on int32 scalars, with the default step [1]:
    the op requires [start <= limit] and raises otherwise. *)
Definition tf_range (start limit : Z) : result (list Z) :=
  _ <- guard (start <=? limit)%Z InvalidRange ;;
  Ok (map (fun k => (start + Z.of_nat k)%Z)
          (seq 0 (Z.to_nat (limit - start)))).

(** [tf.zeros(shape)] / [tf.fill(dims, v)]: the requested dimensions must be
    non-negative. *)
Definition tf_fill {A} (dims : list Z) (v : A) : result (tensor A) :=
  _ <- guard (forallb (fun d => (0 <=? d)%Z) dims) NegativeDimension ;;
  Ok (mkTensor (map Z.to_nat dims) (fun _ => v)).

(** [tf.shape(t)] *)
Definition tf_shape {A} (t : tensor A) : list Z := map Z.of_nat (shape t).

(** [tf.meshgrid] with [indexing='ij'], applied to the sequences [ts]: one tensor per input, all of shape
    [(len ts_0, ..., len ts_{n-1})]; the [k]-th one repeats [ts_k] along
    axis [k]. *)
Definition tf_meshgrid_ij {A} (d : A) (ts : list (list A)) : list (tensor A) :=
  map (fun k => mkTensor (map (@length A) ts)
                         (fun idx => nth (nth k idx 0) (nth k ts []) d))
      (seq 0 (length ts)).

(** [tf.stack(xs)] along a new leading axis.  The list is first converted to
    a tensor as it is, so no tensor at all gives the empty 1-D tensor. *)
Definition tf_stack {A} (d : A) (xs : list (tensor A)) : result (tensor A) :=
  match xs with
  | [] => Ok (mkTensor [0] (fun _ => d))
  | x0 :: _ =>
      _ <- guard (forallb (fun x => shape_eqb (shape x) (shape x0)) xs)
                 ShapeMismatch ;;
      Ok (mkTensor (length xs :: shape x0)
                   (fun idx =>
                      match idx with
                      | i :: rest => get (nth i xs (mkTensor [] (fun _ => d))) rest
                      | [] => d
                      end))
  end.

(** Position of [a] in [perm] ([length perm] when absent). *)
Fixpoint index_of (a : nat) (perm : list nat) : nat :=
  match perm with
  | [] => 0
  | p :: rest => if Nat.eqb p a then 0 else S (index_of a rest)
  end.

Definition is_perm (n : nat) (perm : list nat) : bool :=
  Nat.eqb (length perm) n
  && forallb (fun a => existsb (Nat.eqb a) perm) (seq 0 n).

(** [tf.transpose(t, perm)]: axis [k] of the result is axis [perm[k]] of
    [t]. *)
Definition tf_transpose {A} (t : tensor A) (perm : list nat) : result (tensor A) :=
  _ <- guard (is_perm (rank t) perm) ShapeMismatch ;;
  Ok (mkTensor (map (fun p => nth p (shape t) 0) perm)
               (fun idx =>
                  get t (map (fun a => nth (index_of a perm) idx 0)
                             (seq 0 (rank t))))).

(** Resolution of the requested shape of [tf.reshape]: at most one [-1],
    inferred from the element count [n]. *)
Definition known_prod (dims : list Z) : Z :=
  fold_right (fun d acc => if (d =? -1)%Z then acc else (d * acc)%Z) 1%Z dims.

Definition resolve_shape (n : nat) (dims : list Z) : result (list nat) :=
  let unknown := length (filter (fun d => (d =? -1)%Z) dims) in
  let known := known_prod dims in
  _ <- guard (forallb (fun d => (-1 <=? d)%Z) dims) NegativeDimension ;;
  match unknown with
  | 0 =>
      _ <- guard (known =? Z.of_nat n)%Z BadReshape ;;
      Ok (map Z.to_nat dims)
  | 1 =>
      _ <- guard (negb (known =? 0)%Z) BadReshape ;;
      _ <- guard (Z.of_nat n mod known =? 0)%Z BadReshape ;;
      Ok (map (fun d => if (d =? -1)%Z then Z.to_nat (Z.of_nat n / known)
                        else Z.to_nat d) dims)
  | _ => Err BadReshape
  end.

(** [tf.reshape(t, dims)]: same elements in the same row-major order. *)
Definition tf_reshape {A} (t : tensor A) (dims : list Z) : result (tensor A) :=
  new_shape <- resolve_shape (numel t) dims ;;
  Ok (mkTensor new_shape
               (fun idx => get t (unravel (shape t) (ravel new_shape idx)))).

(** A slice bound as TensorFlow (and Python) read it: a negative bound counts
    from the end, and the result is clamped to [[0, dim]]. *)
Definition canonical_bound (dim : nat) (b : Z) : nat :=
  let b' := if (b <? 0)%Z then (b + Z.of_nat dim)%Z else b in
  Z.to_nat (Z.max 0 (Z.min (Z.of_nat dim) b')).

(** [t[r0:r1, c0:c1]] on a 2-D tensor. *)
Definition slice2 {A} (t : tensor A) (r0 r1 c0 c1 : Z) : tensor A :=
  let nr := nth 0 (shape t) 0 in
  let nc := nth 1 (shape t) 0 in
  let rb := canonical_bound nr r0 in
  let re := canonical_bound nr r1 in
  let cb := canonical_bound nc c0 in
  let ce := canonical_bound nc c1 in
  mkTensor [re - rb; ce - cb]
           (fun idx => get t [rb + nth 0 idx 0; cb + nth 1 idx 0]).

(** Elementwise map (a tensor times a scalar, a cast). *)
Definition tmap {A B} (f : A -> B) (t : tensor A) : tensor B :=
  mkTensor (shape t) (fun idx => f (get t idx)).

(** Row [k] of a 2-D integer tensor. *)
Definition row_of (t : tensor Z) (k : nat) : list Z :=
  map (fun c => get t [k; c]) (seq 0 (nth 1 (shape t) 0)).

Definition index_in_bounds (dims : list nat) (row : list Z) : bool :=
  Nat.eqb (length row) (length dims)
  && forallb (fun p => (0 <=? fst p)%Z && (fst p <? Z.of_nat (snd p))%Z)
             (combine row dims).

(** The cells of a tensor after the first [n] updates of a scatter: update
    [k] writes [u k] to the cell that [row k] addresses. *)
Definition scatter_fold {A} (row : nat -> list Z) (u : nat -> A)
    (g0 : list nat -> A) (n : nat) : list nat -> A :=
  fold_left
    (fun g k idx =>
       if list_eqb Z.eqb (row k) (map Z.of_nat idx) then u k else g idx)
    (seq 0 n) g0.

(** [tf.tensor_scatter_nd_update(t, indices, updates)] for full-depth indices
    (shape [[n, rank t]]) and a 1-D [updates] (shape [[n]]).  Updates are
    applied in order, so the last write to a cell wins.  An index outside the
    tensor is an error, as on CPU. *)
Definition tf_tensor_scatter_nd_update {A}
    (t : tensor A) (indices : tensor Z) (updates : tensor A)
  : result (tensor A) :=
  let n := nth 0 (shape indices) 0 in
  _ <- guard (Nat.eqb (length (shape indices)) 2
              && Nat.eqb (nth 1 (shape indices) 0) (rank t)) ShapeMismatch ;;
  _ <- guard (shape_eqb (shape updates) [n]) ShapeMismatch ;;
  _ <- guard (forallb (fun k => index_in_bounds (shape t) (row_of indices k))
                      (seq 0 n)) IndexOutOfBounds ;;
  Ok (mkTensor (shape t)
        (scatter_fold (row_of indices) (fun k => get updates [k]) (get t) n)).

(** [xs[i]] on a Python list or a 1-D tensor: a negative [i] counts from the
    end. *)
Definition py_index {A} (xs : list A) (i : Z) : result A :=
  let i' := if (i <? 0)%Z then (i + Z.of_nat (length xs))%Z else i in
  if ((0 <=? i') && (i' <? Z.of_nat (length xs)))%Z
  then match nth_error xs (Z.to_nat i') with
       | Some v => Ok v
       | None => Err IndexOutOfBounds
       end
  else Err IndexOutOfBounds.

(** [xs[lo:hi]] on a 1-D tensor; [None] is an omitted bound. *)
Definition py_slice {A} (xs : list A) (lo hi : option Z) : list A :=
  let n := length xs in
  let b := match lo with Some z => canonical_bound n z | None => 0 end in
  let e := match hi with Some z => canonical_bound n z | None => n end in
  firstn (e - b) (skipn b xs).

(* ================================================================== *)
(** ** [_gaussian_penalty] *)

(** One cell of the kernel: [exp((-1 * x ** 2 - y ** 2) / (2 * sigma ** 2))]. *)
Definition penalty_cell (sigma x y : tfloat) : tfloat :=
  let exponent :=
    fdiv (fsub (fmul (Fin (-1)) (fpow2 x)) (fpow2 y))
         (fmul (Fin 2) (fpow2 sigma)) in
  fexp exponent.

(** [radius] is an int32 scalar.  [radius / 3] is a true division, so [sigma]
    is the real quotient; [x] and [y] are [range_width] laid along the rows
    and along the columns, and the arithmetic broadcasts them to the square
    patch. *)
Definition _gaussian_penalty (radius : Z) : result (tensor tfloat) :=
  let width := Int32.add (Int32.mul 2 radius) 1 in
  let sigma := Fin (IZR radius / 3) in
  range_width <- tf_range 0 width ;;
  let range_width :=
    map (fun v => of_int (Int32.sub v radius)) range_width in
  let n := length range_width in
  Ok (mkTensor [n; n]
        (fun idx =>
           let x := nth (nth 0 idx 0) range_width (Fin 0) in
           let y := nth (nth 1 idx 0) range_width (Fin 0) in
           penalty_cell sigma x y)).

(* ================================================================== *)
(** ** [cartesian_product] *)

(** [tensors * repeat] on a Python tuple. *)
Definition tuple_repeat {A} (xs : list A) (repeat : Z) : list A :=
  concat (List.repeat xs (Z.to_nat repeat)).

Definition cartesian_product (tensors : list (list Z)) (repeat : Z)
  : result (tensor Z) :=
  let tensors := tuple_repeat tensors repeat in
  let n := length tensors in
  stacked <- tf_stack 0%Z (tf_meshgrid_ij 0%Z tensors) ;;
  transposed <- tf_transpose stacked (map (fun i => i + 1) (seq 0 n) ++ [0]) ;;
  tf_reshape transposed [(-1)%Z; Z.of_nat n].

(** The product of sequences in lexicographic order, the last sequence
    varying fastest, as the specification words it (this is
    [itertools.product]). *)
Fixpoint lex_product {A} (seqs : list (list A)) : list (list A) :=
  match seqs with
  | [] => [[]]
  | s :: rest =>
      flat_map (fun x => map (cons x) (lex_product rest)) s
  end.

(* ================================================================== *)
(** ** [draw_gaussian] *)

(** The clip margins and the two operands of the scatter, as the body
    computes them before the final [tf.tensor_scatter_nd_update]. *)
Record scatter_args : Type := mkScatterArgs {
  sc_heatmap : tensor tfloat;   (* the zero buffer *)
  sc_indices : tensor Z;        (* [heatmap_indices] *)
  sc_updates : tensor tfloat    (* [gaussian * scaling_factor] *)
}.

Definition draw_gaussian_args (hm_shape blob : list Z) (scaling_factor : Z)
  : result scatter_args :=
  gaussian_heatmap <- tf_fill hm_shape (Fin 0) ;;
  let blob := map Int32.wrap blob in
  obj_class <- py_index blob 0 ;;
  x <- py_index blob 1 ;;
  y <- py_index blob 2 ;;
  radius <- py_index blob 3 ;;
  height <- py_index hm_shape 0 ;;
  width <- py_index hm_shape 1 ;;
  let left := Z.min x radius in
  let right := Z.min (Int32.sub width x) (Int32.add radius 1) in
  let top := Z.min y radius in
  let bottom := Z.min (Int32.sub height y) (Int32.add radius 1) in
  gaussian <- _gaussian_penalty radius ;;
  let gaussian :=
    slice2 gaussian (Int32.sub radius top) (Int32.add radius bottom)
                    (Int32.sub radius left) (Int32.add radius right) in
  gaussian <- tf_reshape gaussian [(-1)%Z] ;;
  rows <- tf_range (Int32.sub y top) (Int32.add y bottom) ;;
  cols <- tf_range (Int32.sub x left) (Int32.add x right) ;;
  heatmap_indices <- cartesian_product [rows; cols; [obj_class]] 1 ;;
  Ok (mkScatterArgs gaussian_heatmap heatmap_indices
                    (tmap (fun v => fmul v (of_int scaling_factor)) gaussian)).

Definition draw_gaussian (hm_shape blob : list Z) (scaling_factor : Z)
  : result (tensor tfloat) :=
  args <- draw_gaussian_args hm_shape blob scaling_factor ;;
  tf_tensor_scatter_nd_update (sc_heatmap args) (sc_indices args)
                              (sc_updates args).

(* ================================================================== *)
(** ** [get_image_shape] *)

Definition get_image_shape {A} (image : tensor A) : result (Z * Z) :=
  let shape := tf_shape image in
  if Nat.eqb (length shape) 4 then
    width <- py_index shape 2 ;;
    height <- py_index shape 1 ;;
    Ok (height, width)
  else
    width <- py_index shape 1 ;;
    height <- py_index shape 0 ;;
    Ok (height, width).

(* ================================================================== *)
(** ** [pad_max_instances] *)

(** An axis argument of [tf.split] / [tf.concat]: in [[-rank, rank)], a
    negative one counting from the end. *)
Definition resolve_axis (rank : nat) (axis : Z) : result nat :=
  let a := if (axis <? 0)%Z then (axis + Z.of_nat rank)%Z else axis in
  if ((0 <=? a) && (a <? Z.of_nat rank))%Z then Ok (Z.to_nat a)
  else Err IndexOutOfBounds.

Fixpoint set_nth {A} (n : nat) (v : A) (l : list A) : list A :=
  match l, n with
  | [], _ => []
  | _ :: rest, O => v :: rest
  | x :: rest, S n' => x :: set_nth n' v rest
  end.

(** [tf.split(value, [s0, s1], axis)] for two sizes: at most one may be [-1]
    (it takes what the other leaves), none may be otherwise negative, and
    they must add up to the size of the axis.  Returns both pieces. *)
Definition tf_split2 {A} (value : tensor A) (s0 s1 : Z) (axis : Z)
  : result (tensor A * tensor A) :=
  ax <- resolve_axis (rank value) axis ;;
  let dim := Z.of_nat (nth ax (shape value) 0) in
  _ <- guard (negb ((s0 =? -1)%Z && (s1 =? -1)%Z)) BadSplit ;;
  let determined :=
    ((if (s0 =? -1) then 0 else s0) + (if (s1 =? -1) then 0 else s1))%Z in
  _ <- guard (if ((s0 =? -1) || (s1 =? -1))%Z then (determined <=? dim)%Z
              else (determined =? dim)%Z) BadSplit ;;
  let n0 := if (s0 =? -1)%Z then (dim - determined)%Z else s0 in
  let n1 := if (s1 =? -1)%Z then (dim - determined)%Z else s1 in
  _ <- guard ((0 <=? n0) && (0 <=? n1))%Z BadSplit ;;
  Ok (mkTensor (set_nth ax (Z.to_nat n0) (shape value)) (get value),
      mkTensor (set_nth ax (Z.to_nat n1) (shape value))
               (fun idx =>
                  get value (set_nth ax (Z.to_nat n0 + nth ax idx 0) idx))).

(** [tf.concat([a, b], axis)]: equal ranks, equal sizes off the axis. *)
Definition tf_concat2 {A} (a b : tensor A) (axis : Z) : result (tensor A) :=
  ax <- resolve_axis (rank a) axis ;;
  let da := nth ax (shape a) 0 in
  let db := nth ax (shape b) 0 in
  _ <- guard (shape_eqb (set_nth ax 0 (shape a)) (set_nth ax 0 (shape b)))
             ShapeMismatch ;;
  Ok (mkTensor (set_nth ax (da + db) (shape a))
               (fun idx =>
                  let i := nth ax idx 0 in
                  if i <? da then get a idx
                  else get b (set_nth ax (i - da) idx))).

Definition pad_max_instances {A} (value : tensor A) (instances : Z)
    (pad_value : A) (pad_axis : Z) : result (tensor A) :=
  let shape := tf_shape value in
  let pad_axis :=
    if (pad_axis <? 0)%Z then (Z.of_nat (length shape) + pad_axis)%Z
    else pad_axis in
  dim1 <- py_index shape pad_axis ;;
  let take := Z.min instances dim1 in
  '(value, _) <- tf_split2 value take (-1) pad_axis ;;
  let pad := [Z.max (Int32.sub instances dim1) 0] in
  let nshape :=
    py_slice shape None (Some pad_axis) ++ pad
    ++ py_slice shape (Some (pad_axis + 1)%Z) None in
  pad_tensor <- tf_fill nshape pad_value ;;
  tf_concat2 value pad_tensor pad_axis.

(* ================================================================== *)
(** ** IEEE 754 binary formats

    [gaussian_radius] is sensitive to rounding, so it is modelled on IEEE
    numbers: [spec_float] with the operations of the standard library,
    rounded to nearest, ties to even.  [F32] is [tf.float32], [F64] is the
    Python [float]. *)

Module F32.

Definition prec : Z := 24.
Definition emax : Z := 128.

Definition add : spec_float -> spec_float -> spec_float := SFadd prec emax.
Definition sub : spec_float -> spec_float -> spec_float := SFsub prec emax.
Definition mul : spec_float -> spec_float -> spec_float := SFmul prec emax.
Definition div : spec_float -> spec_float -> spec_float := SFdiv prec emax.
Definition sqrt : spec_float -> spec_float := SFsqrt prec emax.
Definition opp : spec_float -> spec_float := SFopp.

(** The float nearest to an integer. *)
Definition of_Z (z : Z) : spec_float := binary_normalize prec emax z 0 false.

(** Conversion of a number of a wider format. *)
Definition round (x : spec_float) : spec_float :=
  match x with
  | S754_finite s m e => binary_round prec emax s m e
  | _ => x
  end.

End F32.

Module F64.

Definition prec : Z := 53.
Definition emax : Z := 1024.

Definition add : spec_float -> spec_float -> spec_float := SFadd prec emax.
Definition sub : spec_float -> spec_float -> spec_float := SFsub prec emax.
Definition mul : spec_float -> spec_float -> spec_float := SFmul prec emax.
Definition div : spec_float -> spec_float -> spec_float := SFdiv prec emax.
Definition opp : spec_float -> spec_float := SFopp.

Definition of_Z (z : Z) : spec_float := binary_normalize prec emax z 0 false.

End F64.


Definition is_zero (x : spec_float) : bool :=
  match x with S754_zero _ => true | _ => false end.

Definition is_infinite (x : spec_float) : bool :=
  match x with S754_infinity _ => true | _ => false end.

(* ================================================================== *)
(** ** Broadcasting float32 tensors *)

(** The common shape of two shapes, both read from their last axis. *)
Fixpoint broadcast_rev (a b : list nat) : result (list nat) :=
  match a, b with
  | [], l | l, [] => Ok l
  | x :: a', y :: b' =>
      rest <- broadcast_rev a' b' ;;
      if Nat.eqb x y then Ok (x :: rest)
      else if Nat.eqb x 1 then Ok (y :: rest)
      else if Nat.eqb y 1 then Ok (x :: rest)
      else Err ShapeMismatch
  end.

Definition broadcast_shapes (a b : list nat) : result (list nat) :=
  s <- broadcast_rev (rev a) (rev b) ;; Ok (rev s).

(** The cell of a tensor of shape [s] that position [idx] of the broadcast
    result reads: the trailing axes of [idx], an axis of size 1 being read at
    0. *)
Definition bcast_index (s idx : list nat) : list nat :=
  map (fun p => if Nat.eqb (fst p) 1 then 0 else snd p)
      (combine s (skipn (length idx - length s) idx)).

(** An elementwise binary operator on tensors. *)
Definition tf_binop (f : spec_float -> spec_float -> spec_float)
    (a b : tensor spec_float) : result (tensor spec_float) :=
  s <- broadcast_shapes (shape a) (shape b) ;;
  Ok (mkTensor s (fun idx => f (get a (bcast_index (shape a) idx))
                               (get b (bcast_index (shape b) idx)))).

Definition scalar32 (x : spec_float) : tensor spec_float :=
  mkTensor [] (fun _ => x).

(* ================================================================== *)
(** ** Python numbers and tensors

    The values [gaussian_radius] computes with: a Python [int], a Python
    [float] (binary64), or a [tf.float32] tensor.  Arithmetic between Python
    numbers follows Python; as soon as a tensor takes part the other operand
    is converted to float32 and the operation is elementwise. *)

Inductive value : Type :=
| PyInt (z : Z)
| PyFloat (x : spec_float)
| Tf32 (t : tensor spec_float).

(** [tf.convert_to_tensor(v, dtype=tf.float32)] *)
Definition as_tensor (v : value) : tensor spec_float :=
  match v with
  | PyInt z => scalar32 (F32.of_Z z)
  | PyFloat x => scalar32 (F32.round x)
  | Tf32 t => t
  end.

(** [float(z)]: too large an [int] raises. *)
Definition int_to_float (z : Z) : result spec_float :=
  let x := F64.of_Z z in
  if is_infinite x then Err Overflow else Ok x.

(** [a + b], [a - b], [a * b] *)
Definition py_arith (iop : Z -> Z -> Z)
    (f64 f32 : spec_float -> spec_float -> spec_float)
    (a b : value) : result value :=
  match a, b with
  | PyInt x, PyInt y => Ok (PyInt (iop x y))
  | PyInt x, PyFloat y => x' <- int_to_float x ;; Ok (PyFloat (f64 x' y))
  | PyFloat x, PyInt y => y' <- int_to_float y ;; Ok (PyFloat (f64 x y'))
  | PyFloat x, PyFloat y => Ok (PyFloat (f64 x y))
  | _, _ => t <- tf_binop f32 (as_tensor a) (as_tensor b) ;; Ok (Tf32 t)
  end.

Definition py_add : value -> value -> result value :=
  py_arith Z.add F64.add F32.add.
Definition py_sub : value -> value -> result value :=
  py_arith Z.sub F64.sub F32.sub.
Definition py_mul : value -> value -> result value :=
  py_arith Z.mul F64.mul F32.mul.

(** [a / b]: between Python numbers a true division in binary64, which raises
    on a zero divisor; with a tensor, the IEEE division. *)
Definition py_truediv (a b : value) : result value :=
  let python (x y : spec_float) : result value :=
    if is_zero y then Err ZeroDivision else Ok (PyFloat (F64.div x y)) in
  match a, b with
  | PyInt x, PyInt y =>
      x' <- int_to_float x ;; y' <- int_to_float y ;; python x' y'
  | PyInt x, PyFloat y => x' <- int_to_float x ;; python x' y
  | PyFloat x, PyInt y => y' <- int_to_float y ;; python x y'
  | PyFloat x, PyFloat y => python x y
  | _, _ => t <- tf_binop F32.div (as_tensor a) (as_tensor b) ;; Ok (Tf32 t)
  end.

(** [-a] *)
Definition py_neg (a : value) : value :=
  match a with
  | PyInt x => PyInt (- x)
  | PyFloat x => PyFloat (F64.opp x)
  | Tf32 t => Tf32 (tmap F32.opp t)
  end.

(** [a ** 2]: exact on an [int]; on a [float] the rounded square, an
    overflow raising; on a tensor the rounded product [x * x] of each
    element. *)
Definition py_pow2 (a : value) : result value :=
  match a with
  | PyInt x => Ok (PyInt (x * x))
  | PyFloat x =>
      let y := F64.mul x x in
      if is_infinite y && negb (is_infinite x) then Err Overflow
      else Ok (PyFloat y)
  | Tf32 t => Ok (Tf32 (tmap (fun x => F32.mul x x) t))
  end.

(** [tf.sqrt(a)]: a Python [float] becomes a float32 tensor; an [int] becomes
    an int32 tensor, for which the op is not defined. *)
Definition tf_sqrt (a : value) : result value :=
  match a with
  | PyInt _ => Err InvalidDtype
  | PyFloat x => Ok (Tf32 (scalar32 (F32.sqrt (F32.round x))))
  | Tf32 t => Ok (Tf32 (tmap F32.sqrt t))
  end.

(** One step of a minimum reduction: the smaller of the running value and
    the next one.  What it does with a NaN is left to the kernel and is not
    relied on. *)
Definition fmin32 (acc x : spec_float) : spec_float :=
  if SFltb x acc then x else acc.

(** [tf.reduce_min(xs, axis=0)] of a list of float32 tensors: they are packed
    along a new leading axis, which needs equal shapes, and reduced along
    it.  Nothing to reduce gives [+inf]. *)
Definition tf_reduce_min0 (xs : list value) : result value :=
  match map as_tensor xs with
  | [] => Ok (Tf32 (scalar32 (S754_infinity false)))
  | t0 :: rest =>
      _ <- guard (forallb (fun t => shape_eqb (shape t) (shape t0)) rest)
                 ShapeMismatch ;;
      Ok (Tf32 (mkTensor (shape t0)
                  (fun idx =>
                     fold_left fmin32 (map (fun t => get t idx) rest)
                               (get t0 idx))))
  end.

(** [det_size]: a Python tuple or list, or a float32 tensor, which
    [det_size[i]] indexes along its first axis. *)
Inductive det : Type :=
| DetSeq (items : list value)
| DetTensor (t : tensor spec_float).

Definition getitem (d : det) (i : nat) : result value :=
  match d with
  | DetSeq items =>
      match nth_error items i with
      | Some v => Ok v
      | None => Err IndexOutOfBounds
      end
  | DetTensor t =>
      match shape t with
      | [] => Err IndexOutOfBounds
      | n :: s =>
          if i <? n then Ok (Tf32 (mkTensor s (fun idx => get t (i :: idx))))
          else Err IndexOutOfBounds
      end
  end.

(* ================================================================== *)
(** ** [_smallest_positive_root] and [gaussian_radius] *)

(** The argument of [tf.sqrt]: [b ** 2 - 4 * a * c]. *)
Definition radicand (a b c : value) : result value :=
  b2 <- py_pow2 b ;;
  four_a <- py_mul (PyInt 4) a ;;
  four_a_c <- py_mul four_a c ;;
  py_sub b2 four_a_c.

(** The Python [float] literal [2.0]. *)
Definition two_f64 : spec_float := F64.of_Z 2.

Definition _smallest_positive_root (a b c : value) : result value :=
  rad <- radicand a b c ;;
  discriminant <- tf_sqrt rad ;;
  num <- py_add (py_neg b) discriminant ;;
  py_truediv num (PyFloat two_f64).

(** The three coefficient triples of [gaussian_radius]. *)
Definition coeffs1 (height width min_overlap : value)
  : result (value * value * value) :=
  let a1 := PyInt 1 in
  hw <- py_add height width ;;
  let b1 := py_neg hw in
  wh <- py_mul width height ;;
  one_minus <- py_sub (PyInt 1) min_overlap ;;
  num <- py_mul wh one_minus ;;
  one_plus <- py_add (PyInt 1) min_overlap ;;
  c1 <- py_truediv num one_plus ;;
  Ok (a1, b1, c1).

Definition coeffs2 (height width min_overlap : value)
  : result (value * value * value) :=
  let a2 := PyInt 4 in
  hw <- py_add height width ;;
  b2 <- py_mul (PyInt (-2)) hw ;;
  one_minus <- py_sub (PyInt 1) min_overlap ;;
  omw <- py_mul one_minus width ;;
  c2 <- py_mul omw height ;;
  Ok (a2, b2, c2).

Definition coeffs3 (height width min_overlap : value)
  : result (value * value * value) :=
  a3 <- py_mul (PyInt 4) min_overlap ;;
  two_m <- py_mul (PyInt 2) min_overlap ;;
  hw <- py_add height width ;;
  b3 <- py_mul two_m hw ;;
  m_minus <- py_sub min_overlap (PyInt 1) ;;
  mmw <- py_mul m_minus width ;;
  c3 <- py_mul mmw height ;;
  Ok (a3, b3, c3).

Definition root_of (abc : value * value * value) : result value :=
  let '(a, b, c) := abc in _smallest_positive_root a b c.

Definition radicand_of (abc : value * value * value) : result value :=
  let '(a, b, c) := abc in radicand a b c.

(** The root of each case: [r1], [r2] and [r3] of the source. *)
Definition case1 (height width min_overlap : value) : result value :=
  abc <- coeffs1 height width min_overlap ;; root_of abc.
Definition case2 (height width min_overlap : value) : result value :=
  abc <- coeffs2 height width min_overlap ;; root_of abc.
Definition case3 (height width min_overlap : value) : result value :=
  abc <- coeffs3 height width min_overlap ;; root_of abc.

Definition gaussian_radius (det_size : det) (min_overlap : value)
  : result value :=
  height <- getitem det_size 0 ;;
  width <- getitem det_size 1 ;;
  r1 <- case1 height width min_overlap ;;
  r2 <- case2 height width min_overlap ;;
  r3 <- case3 height width min_overlap ;;
  tf_reduce_min0 [r1; r2; r3].

(** The default [min_overlap=0.7], a Python [float]. *)
Definition default_min_overlap : value :=
  PyFloat (S754_finite false 6305039478318694 (-53)).

(* ------------------------------------------------------------------ *)
(** The radius as the specification words it, on float32 numbers: each root
    is [(-b + sqrt(b^2 - 4ac)) / 2], computed from the three coefficient
    triples, and the result is a least one of the three. *)




(* ================================================================== *)
(** ** Closed forms used by the properties *)

(** The cell of the patch of radius [r] at row [i], column [j], in terms of
    the offsets from the center. *)
Definition kernel_at (r : Z) (i j : nat) : tfloat :=
  penalty_cell (Fin (IZR r / 3))
               (of_int (Z.of_nat i - r)) (of_int (Z.of_nat j - r)).

(** The combination addressed by the multi-index [u]: the [u_k]-th element
    of the [k]-th sequence, for each [k]. *)
Fixpoint select {A} (d : A) (seqs : list (list A)) (u : list nat) : list A :=
  match seqs, u with
  | s :: rest, i :: u' => nth i s d :: select d rest u'
  | _, _ => []
  end.

(** The axis a possibly negative [axis] argument designates in a tensor of
    rank [rank]. *)
Definition axis_of (rank : nat) (axis : Z) : nat :=
  Z.to_nat (if (axis <? 0)%Z then (axis + Z.of_nat rank)%Z else axis).

(** The clip margins of [draw_gaussian]: [left] / [top] on the low side and
    [right] / [bottom] on the high side of an axis of size [size]. *)
Definition margin_lo (c radius : Z) : Z := Z.min c radius.
Definition margin_hi (size c radius : Z) : Z := Z.min (size - c) (radius + 1).

(** Cell [(i, j, c)] lies in the clipped footprint of the blob. *)
Definition in_clipped (H W cls x y r : Z) (i j c : nat) : bool :=
  ((y - margin_lo y r <=? Z.of_nat i) && (Z.of_nat i <? y + margin_hi H y r)
   && (x - margin_lo x r <=? Z.of_nat j) && (Z.of_nat j <? x + margin_hi W x r)
   && (Z.of_nat c =? cls))%Z.

(** Cell [(i, j, c)] lies in the full (2r+1) x (2r+1) block centered at
    [(y, x)] in channel [cls]. *)
Definition in_block (cls x y r : Z) (i j c : nat) : bool :=
  ((y - r <=? Z.of_nat i) && (Z.of_nat i <=? y + r)
   && (x - r <=? Z.of_nat j) && (Z.of_nat j <=? x + r)
   && (Z.of_nat c =? cls))%Z.

(* ------------------------------------------------------------------ *)
(** Auxiliary definitions for the statements about [gaussian_radius]. *)

(** The number held by a result that is a scalar float32 tensor. *)
Definition scalar_value (v : result value) : option spec_float :=
  match v with
  | Ok (Tf32 t) =>
      match shape t with
      | [] => Some (get t [])
      | _ => None
      end
  | _ => None
  end.

(** The radicand of a case, as the float32 number [tf.sqrt] is applied to. *)
Definition radicand_value (abc : result (value * value * value))
  : option spec_float :=
  scalar_value (x <- abc ;; rad <- radicand_of x ;; Ok (Tf32 (as_tensor rad))).

(** Python floats [229.37], [77.27] and [1.0] (binary64). *)
Definition py_229_37 : spec_float := S754_finite false 8070239426015396 (-45).
Definition py_77_27 : spec_float := S754_finite false 5437392862608097 (-46).
Definition py_1_0 : spec_float := S754_finite false 4503599627370496 (-52).

(** float32 numbers [931.91473...], [931.91491...], [6.5e-9] and [0.7]. *)
Definition f32_931_9147 : spec_float := S754_finite false 15268491 (-14).
Definition f32_931_9149 : spec_float := S754_finite false 15268494 (-14).
Definition f32_6_5e_9 : spec_float := S754_finite false 14636699 (-51).





Definition is_positive (x : spec_float) : bool := SFltb (S754_zero false) x.




(* ================================================================== *)
(** * Properties *)

(** ** Evaluation lemmas for the dtype operations *)



Lemma Rcmp0_zero : Rcmp0 0 = Eq.
Proof.
  unfold Rcmp0.
  destruct (total_order_T 0 0) as [[Hlt | Heq] | Hgt]; try reflexivity; lra.
Qed.

Lemma fdiv_fin (x y : R) : y <> 0%R -> fdiv (Fin x) (Fin y) = Fin (x / y).
Proof.
  intros Hy. simpl. destruct (Req_dec_T y 0) as [E | _]; [contradiction | reflexivity].
Qed.

Lemma fdiv_zero_zero : fdiv (Fin 0) (Fin 0) = NaN.
Proof.
  simpl. destruct (Req_dec_T 0 0) as [_ | N]; [| now elim N].
  unfold by_sign. now rewrite Rcmp0_zero.
Qed.

(** ** 32-bit arithmetic without overflow *)

Lemma wrap_id (z : Z) : Int32.in_range z -> Int32.wrap z = z.
Proof.
  unfold Int32.in_range, Int32.wrap, Int32.half, Int32.modulus.
  intros Hz. rewrite Z.mod_small; lia.
Qed.

Lemma add_id (a b : Z) : Int32.in_range (a + b) -> Int32.add a b = (a + b)%Z.
Proof. apply wrap_id. Qed.

Lemma sub_id (a b : Z) : Int32.in_range (a - b) -> Int32.sub a b = (a - b)%Z.
Proof. apply wrap_id. Qed.

Lemma mul_id (a b : Z) : Int32.in_range (a * b) -> Int32.mul a b = (a * b)%Z.
Proof. apply wrap_id. Qed.

(** Discharges the side conditions of the three lemmas above. *)
Ltac in_range :=
  unfold Int32.in_range, Int32.half in *; lia.

(** ** [tf.range] *)

Lemma tf_range_ok (start limit : Z) :
  (start <= limit)%Z ->
  tf_range start limit
  = Ok (map (fun k => (start + Z.of_nat k)%Z)
            (seq 0 (Z.to_nat (limit - start)))).
Proof.
  intros Hle. unfold tf_range.
  replace (start <=? limit)%Z with true by (symmetry; apply Z.leb_le; lia).
  reflexivity.
Qed.


(** ** [_gaussian_penalty] *)

Lemma nth_map_seq {A} (f : nat -> A) (d : A) (n i : nat) :
  i < n -> nth i (map f (seq 0 n)) d = f i.
Proof.
  intros Hi. rewrite (nth_indep _ d (f 0)) by (rewrite length_map, length_seq; exact Hi).
  rewrite (map_nth f (seq 0 n) 0 i). now rewrite seq_nth.
Qed.

Lemma gaussian_penalty_ok (r : Z) :
  (0 <= r < 2 ^ 30)%Z ->
  exists k : tensor tfloat,
    _gaussian_penalty r = Ok k /\
    shape k = [Z.to_nat (2 * r + 1); Z.to_nat (2 * r + 1)] /\
    forall i j : nat,
      i < Z.to_nat (2 * r + 1) -> j < Z.to_nat (2 * r + 1) ->
      get k [i; j] = kernel_at r i j.
Proof.
  intros Hr. unfold _gaussian_penalty.
  rewrite mul_id by in_range. rewrite add_id by in_range.
  rewrite tf_range_ok by lia. cbn [bind].
  eexists. split; [reflexivity |]. cbn [shape get].
  rewrite !length_map, length_seq, Z.sub_0_r.
  split; [reflexivity |].
  intros i j Hi Hj. cbn [nth]. unfold kernel_at.
  rewrite map_map.
  rewrite !nth_map_seq by assumption.
  rewrite !sub_id by in_range.
  reflexivity.
Qed.

Lemma fpow2_of_int_opp (z : Z) : fpow2 (of_int (- z)) = fpow2 (of_int z).
Proof.
  unfold fpow2, of_int. cbn [fmul]. rewrite opp_IZR. f_equal. ring.
Qed.

Lemma penalty_cell_opp (s : tfloat) (a b : Z) :
  penalty_cell s (of_int (- a)) (of_int (- b))
  = penalty_cell s (of_int a) (of_int b).
Proof.
  unfold penalty_cell. now rewrite !fpow2_of_int_opp.
Qed.

(** The patch is unchanged by a half-turn about its center. *)
Lemma kernel_at_rot (r : Z) (i j : nat) :
  (0 <= r)%Z -> i < Z.to_nat (2 * r + 1) -> j < Z.to_nat (2 * r + 1) ->
  kernel_at r (2 * Z.to_nat r - i) (2 * Z.to_nat r - j) = kernel_at r i j.
Proof.
  intros Hr Hi Hj. unfold kernel_at.
  replace (Z.of_nat (2 * Z.to_nat r - i) - r)%Z with (- (Z.of_nat i - r))%Z by lia.
  replace (Z.of_nat (2 * Z.to_nat r - j) - r)%Z with (- (Z.of_nat j - r))%Z by lia.
  apply penalty_cell_opp.
Qed.

(** For a positive radius the center holds [exp 0 = 1]. *)
Lemma kernel_at_center (r : Z) :
  (1 <= r)%Z -> kernel_at r (Z.to_nat r) (Z.to_nat r) = Fin 1.
Proof.
  intros Hr. unfold kernel_at, penalty_cell, fpow2, of_int.
  replace (Z.of_nat (Z.to_nat r) - r)%Z with 0%Z by lia.
  cbn [fmul fsub fneg fadd].
  assert (Hs : (0 < IZR r)%R) by (apply IZR_lt; lia).
  rewrite fdiv_fin by nra.
  cbn [fexp]. f_equal.
  replace ((-1 * (0 * 0) + - (0 * 0)) / (2 * (IZR r / 3 * (IZR r / 3))))%R
    with 0%R by (field; lra).
  apply exp_0.
Qed.

(** For radius zero [sigma] is zero and the only cell is [exp (0 / 0)]. *)
Lemma kernel_at_zero : kernel_at 0 0 0 = NaN.
Proof.
  unfold kernel_at, penalty_cell, fpow2, of_int. cbn [Z.of_nat Z.sub Z.opp Z.add].
  cbn [fmul fsub fneg fadd].
  replace (-1 * (0 * 0) + - (0 * 0))%R with 0%R by ring.
  replace (2 * (0 / 3 * (0 / 3)))%R with 0%R by field.
  rewrite fdiv_zero_zero. reflexivity.
Qed.

(** The cells of the patch are positive finite numbers when the radius is
    positive. *)
Lemma kernel_at_pos (r : Z) (i j : nat) :
  (1 <= r)%Z -> exists v : R, kernel_at r i j = Fin v /\ (0 < v)%R.
Proof.
  intros Hr. unfold kernel_at, penalty_cell, fpow2, of_int.
  cbn [fmul fsub fneg fadd].
  assert (Hs : (0 < IZR r)%R) by (apply IZR_lt; lia).
  rewrite fdiv_fin by nra.
  cbn [fexp]. eexists. split; [reflexivity | apply exp_pos].
Qed.

(** C3: at radius 0 the patch is 1 x 1 and its single value is NaN, the
    result of [0 / 0]; the patch does not hold [1.0] there. *)
Theorem gaussian_penalty_radius_zero :
  exists k : tensor tfloat,
    _gaussian_penalty 0 = Ok k /\
    shape k = [1; 1] /\
    get k [0; 0] = NaN /\
    get k [0; 0] <> Fin 1.
Proof.
  destruct (@gaussian_penalty_ok 0) as (k & Hk & Hs & Hg); [lia |].
  exists k. split; [exact Hk |]. split; [exact Hs |].
  assert (E : get k [0; 0] = NaN).
  { rewrite Hg by (cbn; lia). apply kernel_at_zero. }
  split; [exact E |]. rewrite E. discriminate.
Qed.

(** C7: for every radius [0 <= r] the patch has shape (2r+1) x (2r+1) and is
    invariant under a half-turn; its center is exactly [1.0] when [r >= 1],
    and NaN when [r = 0]. *)
Theorem gaussian_penalty_rotation_center (r : Z) :
  (0 <= r < 2 ^ 30)%Z ->
  exists k : tensor tfloat,
    _gaussian_penalty r = Ok k /\
    shape k = [Z.to_nat (2 * r + 1); Z.to_nat (2 * r + 1)] /\
    (forall i j : nat,
        i < Z.to_nat (2 * r + 1) -> j < Z.to_nat (2 * r + 1) ->
        get k [i; j] = get k [2 * Z.to_nat r - i; 2 * Z.to_nat r - j]) /\
    ((1 <= r)%Z -> get k [Z.to_nat r; Z.to_nat r] = Fin 1) /\
    (r = 0%Z -> get k [Z.to_nat r; Z.to_nat r] = NaN).
Proof.
  intros Hr.
  destruct (@gaussian_penalty_ok r Hr) as (k & Hk & Hs & Hg).
  exists k. split; [exact Hk |]. split; [exact Hs |]. split; [| split].
  - intros i j Hi Hj.
    rewrite Hg by assumption. rewrite Hg by lia.
    symmetry. apply kernel_at_rot; [lia | assumption | assumption].
  - intros Hpos. rewrite Hg by lia. now apply kernel_at_center.
  - intros ->. rewrite Hg by (cbn; lia). apply kernel_at_zero.
Qed.

Lemma gaussian_penalty_rotation_center_witness :
  exists k : tensor tfloat,
    _gaussian_penalty 2 = Ok k /\
    shape k = [Z.to_nat (2 * 2 + 1); Z.to_nat (2 * 2 + 1)] /\
    (forall i j : nat,
        i < Z.to_nat (2 * 2 + 1) -> j < Z.to_nat (2 * 2 + 1) ->
        get k [i; j] = get k [2 * Z.to_nat 2 - i; 2 * Z.to_nat 2 - j]) /\
    ((1 <= 2)%Z -> get k [Z.to_nat 2; Z.to_nat 2] = Fin 1) /\
    (2%Z = 0%Z -> get k [Z.to_nat 2; Z.to_nat 2] = NaN).
Proof.
  apply (@gaussian_penalty_rotation_center 2). lia.
Defined.

(** ** Row-major indexing *)

Lemma prod_app (a b : list nat) : prod (a ++ b) = prod a * prod b.
Proof.
  induction a as [| x a IH]; cbn [app prod fold_right].
  - fold (prod b). lia.
  - fold (prod (a ++ b)) (prod a). rewrite IH. lia.
Qed.

Lemma prod_cons (d : nat) (ds : list nat) : prod (d :: ds) = d * prod ds.
Proof. reflexivity. Qed.

Lemma length_unravel (dims : list nat) (flat : nat) :
  length (unravel dims flat) = length dims.
Proof.
  revert flat. induction dims as [| d ds IH]; intros flat; cbn; [reflexivity |].
  now rewrite IH.
Qed.

Lemma divmod_snoc (r n c P : nat) :
  c < n -> 0 < P ->
  (r * n + c) / (P * n) = r / P /\
  (r * n + c) mod (P * n) = (r mod P) * n + c.
Proof.
  intros Hc HP.
  assert (Hr : r = P * (r / P) + r mod P) by (apply Nat.div_mod; lia).
  assert (Hm : r mod P < P) by (apply Nat.mod_upper_bound; lia).
  assert (Hlt : (r mod P) * n + c < P * n) by nia.
  assert (E : r * n + c = (P * n) * (r / P) + ((r mod P) * n + c)) by nia.
  split.
  - symmetry. apply (Nat.div_unique _ _ _ ((r mod P) * n + c)); assumption.
  - symmetry. apply (Nat.mod_unique _ _ (r / P)); assumption.
Qed.

(** Appending a trailing axis of size [n] splits the flat position into the
    position without that axis and the coordinate on it. *)
Lemma unravel_snoc (ds : list nat) (n r c : nat) :
  c < n -> r < prod ds ->
  unravel (ds ++ [n]) (r * n + c) = unravel ds r ++ [c].
Proof.
  intros Hc. revert r. induction ds as [| d ds IH]; intros r Hr.
  - cbn in Hr. assert (r = 0) by lia. subst r.
    cbn [app unravel prod fold_right Nat.mul Nat.add].
    now rewrite Nat.div_1_r.
  - rewrite prod_cons in Hr.
    assert (HP : 0 < prod ds) by nia.
    cbn [app unravel]. rewrite prod_app.
    replace (prod [n]) with n by (cbn; lia).
    destruct (@divmod_snoc r n c (prod ds) Hc HP) as [Hq Hm].
    rewrite Hq, Hm. rewrite IH by (apply Nat.mod_upper_bound; lia).
    reflexivity.
Qed.

(** ** Lists *)

Lemma map_nth_seq {A} (d : A) (l : list A) :
  map (fun a => nth a l d) (seq 0 (length l)) = l.
Proof.
  induction l as [| x l IH]; [reflexivity |].
  cbn [length seq map nth]. f_equal.
  rewrite <- seq_shift, map_map. exact IH.
Qed.

Lemma map_nth_seq_app {A} (d : A) (l tl : list A) :
  map (fun a => nth a (l ++ tl) d) (seq 0 (length l)) = l.
Proof.
  transitivity (map (fun a => nth a l d) (seq 0 (length l)));
    [| apply map_nth_seq].
  apply map_ext_in. intros a Ha. apply in_seq in Ha.
  apply app_nth1. lia.
Qed.

Lemma list_eqb_refl {A} (eqb : A -> A -> bool) (l : list A) :
  (forall x, eqb x x = true) -> list_eqb eqb l l = true.
Proof.
  intros Hrefl. induction l as [| x l IH]; [reflexivity |].
  cbn. now rewrite Hrefl, IH.
Qed.

Lemma list_eqb_eq {A} (eqb : A -> A -> bool) (l1 l2 : list A) :
  (forall x y, eqb x y = true <-> x = y) ->
  list_eqb eqb l1 l2 = true <-> l1 = l2.
Proof.
  intros Hspec. revert l2.
  induction l1 as [| x l1 IH]; intros [| y l2]; cbn; try (split; congruence).
  rewrite andb_true_iff, Hspec, IH. split.
  - intros [-> ->]. reflexivity.
  - intros E. injection E as -> ->. split; reflexivity.
Qed.

Lemma shape_eqb_refl (l : list nat) : shape_eqb l l = true.
Proof. apply list_eqb_refl, Nat.eqb_refl. Qed.

(** An element of a concatenation of blocks of equal length [P]. *)
Lemma nth_flat_map_uniform {A B} (f : A -> list B) (s : list A) (P r : nat)
    (da : A) (db : B) :
  (forall x, length (f x) = P) -> r < length s * P ->
  nth r (flat_map f s) db = nth (r mod P) (f (nth (r / P) s da)) db.
Proof.
  intros Hlen. revert r. induction s as [| x s IH]; intros r Hr.
  - cbn in Hr. lia.
  - assert (HP : 0 < P) by (cbn in Hr; nia).
    cbn [flat_map]. destruct (Nat.lt_ge_cases r P) as [Hlt | Hge].
    + rewrite app_nth1 by (rewrite Hlen; exact Hlt).
      rewrite Nat.div_small, Nat.mod_small by assumption. reflexivity.
    + rewrite app_nth2 by (rewrite Hlen; exact Hge). rewrite Hlen.
      cbn [length] in Hr. rewrite IH by lia.
      replace r with ((r - P) + 1 * P) at 3 4 by lia.
      rewrite Nat.div_add, Nat.Div0.mod_add by lia.
      replace ((r - P) / P + 1) with (S ((r - P) / P)) by lia.
      reflexivity.
Qed.

Lemma length_flat_map_uniform {A B} (f : A -> list B) (s : list A) (P : nat) :
  (forall x, length (f x) = P) -> length (flat_map f s) = length s * P.
Proof.
  intros Hlen. induction s as [| x s IH]; [reflexivity |].
  cbn [flat_map length]. rewrite length_app, Hlen, IH. lia.
Qed.

(** ** [lex_product] *)

Lemma length_lex_product {A} (seqs : list (list A)) :
  length (lex_product seqs) = prod (map (@length A) seqs).
Proof.
  induction seqs as [| s rest IH]; [reflexivity |].
  cbn [lex_product map]. rewrite prod_cons.
  rewrite (@length_flat_map_uniform _ _ _ s (length (lex_product rest))).
  - now rewrite IH.
  - intros x. apply length_map.
Qed.

(** Row [r] of the product is the combination addressed by the row-major
    multi-index of [r]. *)
Lemma nth_lex_product {A} (d : A) (seqs : list (list A)) (r : nat) :
  r < prod (map (@length A) seqs) ->
  nth r (lex_product seqs) [] = select d seqs (unravel (map (@length A) seqs) r).
Proof.
  revert r. induction seqs as [| s rest IH]; intros r Hr.
  - cbn in Hr. assert (r = 0) by lia. subst r. reflexivity.
  - cbn [map] in Hr. rewrite prod_cons in Hr.
    set (P := prod (map (@length A) rest)) in *.
    assert (HP : 0 < P) by nia.
    cbn [lex_product map unravel select]. fold P.
    rewrite (@nth_flat_map_uniform _ _ _ s P r d [])
      by (try (intros x; rewrite length_map; apply length_lex_product); lia).
    rewrite (nth_indep _ [] (nth (r / P) s d :: [])).
    2:{ rewrite length_map, length_lex_product. apply Nat.mod_upper_bound. lia. }
    rewrite (map_nth (cons (nth (r / P) s d))).
    rewrite IH by (apply Nat.mod_upper_bound; lia).
    reflexivity.
Qed.

(** A row belongs to the product exactly when it takes its [k]-th entry from
    the [k]-th sequence. *)
Lemma in_lex_product {A} (seqs : list (list A)) (row : list A) :
  In row (lex_product seqs) <-> Forall2 (@In A) row seqs.
Proof.
  revert row. induction seqs as [| s rest IH]; intros row; cbn [lex_product].
  - split.
    + intros [<- | []]. constructor.
    + intros Hf. inversion Hf. now left.
  - rewrite in_flat_map. split.
    + intros (x & Hx & Hin). apply in_map_iff in Hin as (tl & <- & Htl).
      constructor; [exact Hx | now apply IH].
    + intros Hf. inversion Hf as [| x s' tl rest' Hx Htl]; subst.
      exists x. split; [exact Hx |]. apply in_map. now apply IH.
Qed.

Lemma select_as_map {A} (d : A) (seqs : list (list A)) (u : list nat) :
  length u = length seqs ->
  map (fun c => nth (nth c u 0) (nth c seqs []) d) (seq 0 (length seqs))
  = select d seqs u.
Proof.
  revert u. induction seqs as [| s rest IH]; intros u Hu.
  - reflexivity.
  - destruct u as [| i u]; [discriminate |].
    cbn [length seq map nth select]. f_equal.
    rewrite <- seq_shift, map_map. cbn [nth].
    apply IH. cbn in Hu. lia.
Qed.

(** ** The tensor ops behind [cartesian_product] *)

Lemma tuple_repeat_one {A} (xs : list A) : tuple_repeat xs 1 = xs.
Proof.
  unfold tuple_repeat. cbn. apply app_nil_r.
Qed.


Lemma tf_stack_meshgrid {A} (d : A) (ts : list (list A)) :
  ts <> [] ->
  exists stacked : tensor A,
    tf_stack d (tf_meshgrid_ij d ts) = Ok stacked /\
    shape stacked = length ts :: map (@length A) ts /\
    forall (c : nat) (u : list nat),
      c < length ts ->
      get stacked (c :: u) = nth (nth c u 0) (nth c ts []) d.
Proof.
  intros Hne. destruct ts as [| t0 ts']; [congruence |].
  set (ts := t0 :: ts') in *.
  unfold tf_meshgrid_ij.
  set (mk := fun k : nat =>
               mkTensor (map (@length A) ts)
                        (fun idx : list nat => nth (nth k idx 0) (nth k ts []) d)).
  assert (Hall : forallb (fun x => shape_eqb (shape x) (map (@length A) ts))
                         (map mk (seq 0 (length ts))) = true).
  { apply forallb_forall. intros x Hx.
    apply in_map_iff in Hx as (k & <- & _). apply shape_eqb_refl. }
  change (length ts) with (S (length ts')) in *.
  cbn [seq map] in *. unfold tf_stack.
  change (shape (mk 0)) with (map (@length A) ts).
  rewrite Hall. cbn [guard bind].
  eexists. split; [reflexivity |]. cbn [shape get length].
  split.
  - now rewrite length_map, length_seq.
  - intros c u Hc.
    change (mk 0 :: map mk (seq 1 (length ts')))
      with (map mk (seq 0 (S (length ts')))).
    rewrite nth_map_seq by exact Hc. reflexivity.
Qed.

Lemma index_of_shifted (n s a : nat) :
  s <= a < s + n ->
  index_of (S a) (map (fun i => i + 1) (seq s n) ++ [0]) = a - s.
Proof.
  revert s. induction n as [| n IH]; intros s Ha; [lia |].
  cbn [seq map app index_of].
  destruct (Nat.eqb_spec (s + 1) (S a)) as [E | N].
  - lia.
  - rewrite IH by lia. lia.
Qed.

Lemma index_of_zero (n s : nat) :
  index_of 0 (map (fun i => i + 1) (seq s n) ++ [0]) = n.
Proof.
  revert s. induction n as [| n IH]; intros s; [reflexivity |].
  cbn [seq map app index_of].
  destruct (Nat.eqb_spec (s + 1) 0) as [E | N]; [lia |].
  now rewrite IH.
Qed.

Lemma is_perm_rotation (n : nat) :
  is_perm (S n) (map (fun i => i + 1) (seq 0 n) ++ [0]) = true.
Proof.
  unfold is_perm. apply andb_true_iff. split.
  - apply Nat.eqb_eq. rewrite length_app, length_map, length_seq. cbn. lia.
  - apply forallb_forall. intros a Ha. apply in_seq in Ha.
    apply existsb_exists. exists a. split; [| apply Nat.eqb_refl].
    apply in_or_app. destruct a as [| a'].
    + right. now left.
    + left. apply in_map_iff. exists a'. split; [lia |]. apply in_seq. lia.
Qed.

(** Moving the leading axis to the end. *)
Lemma tf_transpose_rotation {A} (t : tensor A) (n : nat) (lens : list nat) :
  shape t = n :: lens -> length lens = n ->
  exists tr : tensor A,
    tf_transpose t (map (fun i => i + 1) (seq 0 n) ++ [0]) = Ok tr /\
    shape tr = lens ++ [n] /\
    forall (u : list nat) (c : nat),
      length u = n -> get tr (u ++ [c]) = get t (c :: u).
Proof.
  intros Hs Hl. unfold tf_transpose, rank. rewrite Hs. cbn [length].
  rewrite Hl, is_perm_rotation. cbn [guard bind].
  eexists. split; [reflexivity |]. cbn [shape get]. split.
  - rewrite map_app, map_map. cbn [map nth]. f_equal.
    rewrite <- Hl.
    transitivity (map (fun a => nth a lens 0) (seq 0 (length lens)));
      [| apply map_nth_seq].
    apply map_ext. intros i. now rewrite Nat.add_1_r.
  - intros u c Hu. f_equal. cbn [seq map]. rewrite index_of_zero.
    f_equal.
    + rewrite app_nth2 by lia. now rewrite Hu, Nat.sub_diag.
    + rewrite <- seq_shift, map_map.
      transitivity (map (fun a => nth a (u ++ [c]) 0) (seq 0 (length u)));
        [| apply map_nth_seq_app].
      rewrite Hu. apply map_ext_in. intros a Ha. apply in_seq in Ha.
      rewrite index_of_shifted by lia. now rewrite Nat.sub_0_r.
Qed.

Lemma resolve_shape_rows (P n : nat) :
  n <> 0 -> resolve_shape (P * n) [(-1)%Z; Z.of_nat n] = Ok [P; n].
Proof.
  intros Hn. unfold resolve_shape.
  assert (E1 : (Z.of_nat n =? -1)%Z = false) by (apply Z.eqb_neq; lia).
  cbn [filter forallb known_prod fold_right]. rewrite E1.
  change (-1 =? -1)%Z with true. cbn [length].
  replace (-1 <=? Z.of_nat n)%Z with true by (symmetry; apply Z.leb_le; lia).
  change (-1 <=? -1)%Z with true. cbn [andb guard bind].
  rewrite Z.mul_1_r.
  replace (Z.of_nat n =? 0)%Z with false by (symmetry; apply Z.eqb_neq; lia).
  cbn [negb guard bind].
  rewrite Nat2Z.inj_mul, Z.mod_mul by lia.
  change (0 =? 0)%Z with true. cbn [guard bind map].
  change (-1 =? -1)%Z with true. rewrite E1.
  rewrite Z.div_mul by lia. now rewrite !Nat2Z.id.
Qed.

Lemma resolve_shape_flat (n : nat) :
  resolve_shape n [(-1)%Z] = Ok [n].
Proof.
  unfold resolve_shape. cbn [filter forallb known_prod fold_right].
  change (-1 =? -1)%Z with true. change (-1 <=? -1)%Z with true.
  cbn [length andb guard bind negb map].
  change (1 =? 0)%Z with false. cbn [negb guard bind].
  rewrite Z.mod_1_r. change (0 =? 0)%Z with true. cbn [guard bind].
  rewrite Z.div_1_r. now rewrite Nat2Z.id.
Qed.

(** The table of [cartesian_product]: cell [(r, c)] holds the element of the
    [c]-th sequence addressed by the row-major multi-index of [r]. *)
Lemma cartesian_product_ok (ts : list (list Z)) :
  ts <> [] ->
  exists t : tensor Z,
    cartesian_product ts 1 = Ok t /\
    shape t = [prod (map (@length Z) ts); length ts] /\
    forall r c : nat,
      r < prod (map (@length Z) ts) -> c < length ts ->
      get t [r; c]
      = nth (nth c (unravel (map (@length Z) ts) r) 0) (nth c ts []) 0%Z.
Proof.
  intros Hne. unfold cartesian_product. rewrite tuple_repeat_one.
  destruct (tf_stack_meshgrid 0%Z Hne) as (st & Hst & Hss & Hsg).
  rewrite Hst. cbn [bind].
  destruct (@tf_transpose_rotation _ st (length ts) (map (@length Z) ts) Hss)
    as (tr & Htr & Hts & Htg); [apply length_map |].
  rewrite Htr. cbn [bind].
  assert (Hn : length ts <> 0) by (destruct ts; cbn; congruence).
  unfold tf_reshape, numel. rewrite Hts, prod_app.
  replace (prod [length ts]) with (length ts) by (cbn; lia).
  rewrite resolve_shape_rows by exact Hn. cbn [bind].
  eexists. split; [reflexivity |]. cbn [shape get]. split; [reflexivity |].
  intros r c Hr Hc.
  replace (ravel [prod (map (@length Z) ts); length ts] [r; c])
    with (r * length ts + c) by (cbn; lia).
  rewrite unravel_snoc by assumption.
  rewrite Htg by (rewrite length_unravel; apply length_map).
  now apply Hsg.
Qed.

(** C5: on a non-empty list of sequences [cartesian_product] returns a 2-D
    table with one row per combination and one column per sequence, whose
    rows are the combinations in lexicographic order, the last sequence
    varying fastest; a row is in the table exactly when it takes its [k]-th
    entry from the [k]-th sequence.  In particular the product of [0,1] and
    [0,1,2] is the six rows (0,0),(0,1),(0,2),(1,0),(1,1),(1,2). *)
Theorem cartesian_product_lex_order :
  (forall ts : list (list Z),
      ts <> [] ->
      exists t : tensor Z,
        cartesian_product ts 1 = Ok t /\
        shape t = [length (lex_product ts); length ts] /\
        to_rows t = lex_product ts /\
        (forall row, In row (to_rows t) <-> Forall2 (@In Z) row ts)) /\
  (exists t : tensor Z,
      cartesian_product [[0; 1]; [0; 1; 2]]%Z 1 = Ok t /\
      to_rows t = [[0; 0]; [0; 1]; [0; 2]; [1; 0]; [1; 1]; [1; 2]]%Z).
Proof.
  assert (G : forall ts : list (list Z),
      ts <> [] ->
      exists t : tensor Z,
        cartesian_product ts 1 = Ok t /\
        shape t = [length (lex_product ts); length ts] /\
        to_rows t = lex_product ts).
  { intros ts Hne.
    destruct (cartesian_product_ok Hne) as (t & Ht & Hs & Hg).
    exists t. split; [exact Ht |]. rewrite length_lex_product.
    split; [exact Hs |].
    unfold to_rows. rewrite Hs. cbn [nth].
    transitivity (map (fun r => nth r (lex_product ts) [])
                      (seq 0 (length (lex_product ts))));
      [| apply map_nth_seq].
    rewrite length_lex_product.
    apply map_ext_in. intros r Hr. apply in_seq in Hr.
    rewrite (nth_lex_product 0%Z) by lia.
    rewrite <- select_as_map by (rewrite length_unravel; apply length_map).
    apply map_ext_in. intros c Hc. apply in_seq in Hc.
    apply Hg; lia. }
  split.
  - intros ts Hne. destruct (G ts Hne) as (t & Ht & Hs & Hr).
    exists t. repeat split; try assumption.
    + rewrite Hr. apply in_lex_product.
    + rewrite Hr. apply in_lex_product.
  - destruct (G [[0; 1]; [0; 1; 2]]%Z) as (t & Ht & _ & Hr); [discriminate |].
    exists t. split; [exact Ht |]. rewrite Hr. reflexivity.
Qed.

Lemma cartesian_product_lex_order_witness :
  exists t : tensor Z,
    cartesian_product [[0; 1]; [0; 1; 2]]%Z 1 = Ok t /\
    shape t = [length (lex_product [[0; 1]; [0; 1; 2]]%Z); 2] /\
    to_rows t = lex_product [[0; 1]; [0; 1; 2]]%Z /\
    (forall row,
        In row (to_rows t) <-> Forall2 (@In Z) row [[0; 1]; [0; 1; 2]]%Z).
Proof.
  apply (proj1 cartesian_product_lex_order [[0; 1]; [0; 1; 2]]%Z).
  discriminate.
Defined.

(** ** Python indexing and slicing *)

Lemma py_index_ok {A} (d : A) (xs : list A) (i : Z) :
  (0 <= i < Z.of_nat (length xs))%Z ->
  py_index xs i = Ok (nth (Z.to_nat i) xs d).
Proof.
  intros Hi. unfold py_index.
  replace (i <? 0)%Z with false by (symmetry; apply Z.ltb_ge; lia).
  replace (0 <=? i)%Z with true by (symmetry; apply Z.leb_le; lia).
  replace (i <? Z.of_nat (length xs))%Z with true
    by (symmetry; apply Z.ltb_lt; lia).
  cbn [andb].
  destruct (nth_error xs (Z.to_nat i)) as [v |] eqn:E.
  - now rewrite (nth_error_nth _ _ d E).
  - apply nth_error_None in E. lia.
Qed.

Lemma py_index_err {A} (xs : list A) (i : Z) :
  (Z.of_nat (length xs) <= i)%Z -> py_index xs i = Err IndexOutOfBounds.
Proof.
  intros Hi. unfold py_index.
  replace (i <? 0)%Z with false by (symmetry; apply Z.ltb_ge; lia).
  replace (i <? Z.of_nat (length xs))%Z with false
    by (symmetry; apply Z.ltb_ge; lia).
  now rewrite andb_false_r.
Qed.

Lemma canonical_bound_id (dim : nat) (b : Z) :
  (0 <= b <= Z.of_nat dim)%Z -> canonical_bound dim b = Z.to_nat b.
Proof.
  intros Hb. unfold canonical_bound.
  replace (b <? 0)%Z with false by (symmetry; apply Z.ltb_ge; lia).
  f_equal. lia.
Qed.

(** ** [get_image_shape] *)

(** C8, as the code has it: rank 4 gives [(shape[1], shape[2])]; every other
    rank of at least 2 (rank 3 among them) gives [(shape[0], shape[1])]
    without any check; a rank below 2 fails on the indexing of [shape]. *)
Theorem get_image_shape_by_rank {A} (image : tensor A) :
  (rank image = 4 ->
   get_image_shape image
   = Ok (Z.of_nat (nth 1 (shape image) 0), Z.of_nat (nth 2 (shape image) 0))) /\
  (rank image = 3 ->
   get_image_shape image
   = Ok (Z.of_nat (nth 0 (shape image) 0), Z.of_nat (nth 1 (shape image) 0))) /\
  (rank image <> 4 -> 2 <= rank image ->
   get_image_shape image
   = Ok (Z.of_nat (nth 0 (shape image) 0), Z.of_nat (nth 1 (shape image) 0))) /\
  (rank image < 2 -> get_image_shape image = Err IndexOutOfBounds).
Proof.
  assert (Hother : rank image <> 4 -> 2 <= rank image ->
    get_image_shape image
    = Ok (Z.of_nat (nth 0 (shape image) 0), Z.of_nat (nth 1 (shape image) 0))).
  { unfold rank, get_image_shape, tf_shape. intros H4 H2.
    rewrite length_map. destruct (Nat.eqb_spec (length (shape image)) 4); [lia |].
    rewrite (py_index_ok 0%Z) by (rewrite length_map; lia). cbn [bind].
    rewrite (py_index_ok 0%Z) by (rewrite length_map; lia). cbn [bind].
    change (Z.to_nat 1) with 1. change (Z.to_nat 0) with 0.
    change 0%Z with (Z.of_nat 0). now rewrite !map_nth. }
  split; [| split; [| split]].
  - unfold rank, get_image_shape, tf_shape. intros H4.
    rewrite length_map, H4. cbn [Nat.eqb].
    rewrite (py_index_ok 0%Z) by (rewrite length_map; lia). cbn [bind].
    rewrite (py_index_ok 0%Z) by (rewrite length_map; lia). cbn [bind].
    change (Z.to_nat 1) with 1. change (Z.to_nat 2) with 2.
    change 0%Z with (Z.of_nat 0). now rewrite !map_nth.
  - intros H3. apply Hother; lia.
  - exact Hother.
  - unfold rank, get_image_shape, tf_shape. intros H2.
    rewrite length_map. destruct (Nat.eqb_spec (length (shape image)) 4); [lia |].
    rewrite py_index_err by (rewrite length_map; lia). reflexivity.
Qed.

Lemma get_image_shape_by_rank_witness :
  get_image_shape (mkTensor [2; 5; 7; 3] (fun _ => tt)) = Ok (5, 7)%Z.
Proof.
  apply (proj1 (get_image_shape_by_rank (mkTensor [2; 5; 7; 3] (fun _ => tt)))).
  reflexivity.
Defined.

(** C8 fails as stated: an image of rank 2 (and one of rank 5) is not
    rejected; its first two dimensions are returned as height and width. *)
Lemma get_image_shape_rank2_not_rejected :
  rank (mkTensor [5; 7] (fun _ => tt)) = 2 /\
  get_image_shape (mkTensor [5; 7] (fun _ => tt)) = Ok (5, 7)%Z /\
  get_image_shape (mkTensor [2; 5; 7; 3; 1] (fun _ => tt)) = Ok (2, 5)%Z /\
  ~ (forall image : tensor unit,
        rank image <> 3 -> rank image <> 4 ->
        exists e, get_image_shape image = Err e).
Proof.
  split; [reflexivity |]. split; [reflexivity |]. split; [reflexivity |].
  intros Hall.
  destruct (Hall (mkTensor [5; 7] (fun _ => tt))) as (e & He);
    [cbn; lia | cbn; lia |].
  discriminate He.
Qed.

(** ** [set_nth] and slices *)

Lemma length_set_nth {A} (n : nat) (v : A) (l : list A) :
  length (set_nth n v l) = length l.
Proof.
  revert n. induction l as [| x l IH]; intros [| n]; cbn; try reflexivity.
  now rewrite IH.
Qed.

Lemma nth_set_nth_eq {A} (n : nat) (v d : A) (l : list A) :
  n < length l -> nth n (set_nth n v l) d = v.
Proof.
  revert n. induction l as [| x l IH]; intros [| n] Hn; cbn in *; try lia.
  - reflexivity.
  - apply IH. lia.
Qed.

Lemma nth_set_nth_neq {A} (n k : nat) (v d : A) (l : list A) :
  k <> n -> nth k (set_nth n v l) d = nth k l d.
Proof.
  revert n k. induction l as [| x l IH]; intros [| n] [| k] Hk; cbn;
    try reflexivity; try lia.
  apply IH. lia.
Qed.

Lemma set_nth_set_nth {A} (n : nat) (v w : A) (l : list A) :
  set_nth n v (set_nth n w l) = set_nth n v l.
Proof.
  revert n. induction l as [| x l IH]; intros [| n]; cbn; try reflexivity.
  now rewrite IH.
Qed.

Lemma map_set_nth {A B} (f : A -> B) (n : nat) (v : A) (l : list A) :
  map f (set_nth n v l) = set_nth n (f v) (map f l).
Proof.
  revert n. induction l as [| x l IH]; intros [| n]; cbn; try reflexivity.
  now rewrite IH.
Qed.

Lemma set_nth_as_slices {A} (n : nat) (v : A) (l : list A) :
  n < length l -> firstn n l ++ [v] ++ skipn (S n) l = set_nth n v l.
Proof.
  revert n. induction l as [| x l IH]; intros [| n] Hn; cbn in *; try lia.
  - reflexivity.
  - f_equal. apply IH. lia.
Qed.

Lemma py_slice_prefix {A} (xs : list A) (p : Z) :
  (0 <= p <= Z.of_nat (length xs))%Z ->
  py_slice xs None (Some p) = firstn (Z.to_nat p) xs.
Proof.
  intros Hp. unfold py_slice. rewrite canonical_bound_id by lia.
  cbn [skipn]. now rewrite Nat.sub_0_r.
Qed.

Lemma py_slice_suffix {A} (xs : list A) (p : Z) :
  (0 <= p <= Z.of_nat (length xs))%Z ->
  py_slice xs (Some p) None = skipn (Z.to_nat p) xs.
Proof.
  intros Hp. unfold py_slice. rewrite canonical_bound_id by lia.
  rewrite <- length_skipn. apply firstn_all.
Qed.

Lemma forallb_nonneg_of_nat (l : list nat) :
  forallb (fun d => (0 <=? d)%Z) (map Z.of_nat l) = true.
Proof.
  apply forallb_forall. intros d Hd. apply in_map_iff in Hd as (n & <- & _).
  apply Z.leb_le. lia.
Qed.

(** ** [pad_max_instances] *)

Lemma shape_nth {A} (t : tensor A) (k : nat) :
  nth k (tf_shape t) 0%Z = Z.of_nat (nth k (shape t) 0).
Proof.
  unfold tf_shape. change 0%Z with (Z.of_nat 0). apply map_nth.
Qed.

Lemma resolve_axis_ok (rank : nat) (axis : Z) :
  (- Z.of_nat rank <= axis < Z.of_nat rank)%Z ->
  resolve_axis rank axis = Ok (axis_of rank axis) /\ axis_of rank axis < rank.
Proof.
  intros Ha. unfold resolve_axis, axis_of.
  destruct (Z.ltb_spec axis 0).
  - replace (0 <=? axis + Z.of_nat rank)%Z with true
      by (symmetry; apply Z.leb_le; lia).
    replace (axis + Z.of_nat rank <? Z.of_nat rank)%Z with true
      by (symmetry; apply Z.ltb_lt; lia).
    split; [reflexivity | lia].
  - replace (0 <=? axis)%Z with true by (symmetry; apply Z.leb_le; lia).
    replace (axis <? Z.of_nat rank)%Z with true
      by (symmetry; apply Z.ltb_lt; lia).
    split; [reflexivity | lia].
Qed.

Section PadMaxInstances.
Context {A : Type}.
Variables (value : tensor A) (instances : Z) (pad_value : A) (pad_axis : Z).

Hypothesis axis_valid :
  (- Z.of_nat (rank value) <= pad_axis < Z.of_nat (rank value))%Z.
Hypothesis dims_int32 :
  Forall (fun d => Int32.in_range (Z.of_nat d)) (shape value).
Hypothesis instances_int32 : Int32.in_range instances.

Lemma ax_lt : axis_of (rank value) pad_axis < rank value.
Proof. apply resolve_axis_ok. exact axis_valid. Qed.

Lemma dim_int32 :
  Int32.in_range
    (Z.of_nat (nth (axis_of (rank value) pad_axis) (shape value) 0)).
Proof.
  pose proof ax_lt as Hax. pose proof dims_int32 as Hall.
  rewrite Forall_forall in Hall. apply Hall.
  apply nth_In. exact Hax.
Qed.

(** The axis after the source's own normalisation, which [tf.split] and
    [tf.concat] then receive. *)
Lemma normalised_axis :
  let p := if (pad_axis <? 0)%Z then (Z.of_nat (length (tf_shape value)) + pad_axis)%Z
           else pad_axis in
  p = Z.of_nat (axis_of (rank value) pad_axis) /\
  resolve_axis (rank value) p = Ok (axis_of (rank value) pad_axis).
Proof.
  pose proof ax_lt as Hax. pose proof axis_valid as Hav. cbn zeta.
  set (n := rank value) in *. set (ax := axis_of n pad_axis) in *.
  set (dim := nth ax (shape value) 0) in *.

  unfold tf_shape. rewrite length_map. fold (rank value). fold n.
  assert (E : (if (pad_axis <? 0)%Z then (Z.of_nat n + pad_axis)%Z else pad_axis)
              = Z.of_nat ax).
  { unfold ax, axis_of. destruct (Z.ltb_spec pad_axis 0); lia. }
  rewrite E. split; [reflexivity |].
  destruct (@resolve_axis_ok n (Z.of_nat ax)) as [R _]; [lia |].
  rewrite R. f_equal. unfold axis_of.
  destruct (Z.ltb_spec (Z.of_nat ax) 0); lia.
Qed.

(** With a non-negative count, the result keeps the entries below the count,
    fills the rest with [pad_value], and has exactly [instances] entries on
    the axis. *)
Lemma pad_max_instances_nonneg :
  (0 <= instances)%Z ->
  exists out : tensor A,
    pad_max_instances value instances pad_value pad_axis = Ok out /\
    shape out
    = set_nth (axis_of (rank value) pad_axis) (Z.to_nat instances)
              (shape value) /\
    forall idx : list nat,
      nth (axis_of (rank value) pad_axis) idx 0 < Z.to_nat instances ->
      get out idx
      = if nth (axis_of (rank value) pad_axis) idx 0
           <? nth (axis_of (rank value) pad_axis) (shape value) 0
        then get value idx else pad_value.
Proof.
  intros Hinst. pose proof ax_lt as Hax. pose proof dim_int32 as Hdim.
  pose proof instances_int32 as Hi32.
  destruct normalised_axis as [Hp Hres].
  set (n := rank value) in *. set (ax := axis_of n pad_axis) in *.
  set (dim := nth ax (shape value) 0) in *.
  unfold pad_max_instances. cbn zeta in Hp. rewrite Hp.
  rewrite (py_index_ok 0%Z)
    by (unfold tf_shape; rewrite length_map; fold (rank value); fold n; lia).
  cbn [bind]. rewrite Nat2Z.id. rewrite !shape_nth. fold dim.
  (* the split *)
  unfold tf_split2. fold n. rewrite Hp in Hres. rewrite Hres. cbn [bind].
  fold dim.
  set (take := Z.min instances (Z.of_nat dim)).
  assert (Htake : (0 <= take <= Z.of_nat dim)%Z) by (unfold take; lia).
  replace (take =? -1)%Z with false by (symmetry; apply Z.eqb_neq; lia).
  change (-1 =? -1)%Z with true. cbn [andb orb negb guard bind].
  replace (take + 0 <=? Z.of_nat dim)%Z with true
    by (symmetry; apply Z.leb_le; lia).
  cbn [guard bind].
  replace (0 <=? take)%Z with true by (symmetry; apply Z.leb_le; lia).
  replace (0 <=? Z.of_nat dim - (take + 0))%Z with true
    by (symmetry; apply Z.leb_le; lia).
  cbn [andb guard bind].
  (* the padding block *)
  rewrite sub_id by (unfold Int32.in_range, Int32.half in *; lia).
  set (pad := Z.max (instances - Z.of_nat dim) 0).
  rewrite py_slice_prefix
    by (unfold tf_shape; rewrite length_map; fold (rank value); fold n; lia).
  rewrite py_slice_suffix
    by (unfold tf_shape; rewrite length_map; fold (rank value); fold n; lia).
  rewrite Nat2Z.id.
  replace (Z.to_nat (Z.of_nat ax + 1)) with (S ax) by lia.
  rewrite set_nth_as_slices
    by (unfold tf_shape; rewrite length_map; exact Hax).
  unfold tf_fill.
  replace (forallb (fun d : Z => (0 <=? d)%Z) (set_nth ax pad (tf_shape value)))
    with true.
  2:{ symmetry. apply forallb_forall. intros d Hd.
      apply Z.leb_le.
      destruct (In_nth _ _ 0%Z Hd) as (k & Hk & <-).
      rewrite length_set_nth in Hk.
      destruct (Nat.eq_dec k ax) as [-> | Hne].
      - rewrite nth_set_nth_eq by exact Hk. unfold pad. lia.
      - rewrite nth_set_nth_neq by exact Hne. unfold tf_shape.
        change 0%Z with (Z.of_nat 0). rewrite map_nth. lia. }
  cbn [guard bind].
  unfold tf_shape. rewrite map_set_nth, map_map.
  rewrite (map_ext _ (fun x => x)) by (intros; apply Nat2Z.id).
  rewrite map_id.
  (* the concatenation *)
  unfold tf_concat2, rank. cbn [shape get]. rewrite length_set_nth.
  fold (rank value). fold n. rewrite Hres. cbn [bind].
  rewrite !set_nth_set_nth, shape_eqb_refl. cbn [guard bind].
  rewrite !nth_set_nth_eq by exact Hax.
  eexists. split; [reflexivity |]. cbn [shape get]. split.
  - f_equal. unfold take, pad. lia.
  - intros idx Hidx.
    destruct (Nat.ltb_spec (nth ax idx 0) (Z.to_nat take));
      destruct (Nat.ltb_spec (nth ax idx 0) dim); try reflexivity;
      unfold take in *; lia.
Qed.

(** A negative count is rejected by [tf.split]. *)
Lemma pad_max_instances_negative :
  (instances < 0)%Z ->
  pad_max_instances value instances pad_value pad_axis = Err BadSplit.
Proof.
  intros Hinst. pose proof ax_lt as Hax.
  destruct normalised_axis as [Hp Hres].
  set (n := rank value) in *. set (ax := axis_of n pad_axis) in *.
  set (dim := nth ax (shape value) 0) in *.
  unfold pad_max_instances. cbn zeta in Hp. rewrite Hp.
  rewrite (py_index_ok 0%Z)
    by (unfold tf_shape; rewrite length_map; fold (rank value); fold n; lia).
  cbn [bind]. rewrite Nat2Z.id. rewrite !shape_nth. fold dim.
  unfold tf_split2. fold n. rewrite Hp in Hres. rewrite Hres. cbn [bind].
  fold dim.
  replace (Z.min instances (Z.of_nat dim)) with instances by lia.
  change (-1 =? -1)%Z with true.
  destruct (Z.eqb_spec instances (-1)) as [E | N].
  - reflexivity.
  - cbn [andb orb negb guard bind].
    replace (instances + 0 <=? Z.of_nat dim)%Z with true
      by (symmetry; apply Z.leb_le; lia).
    cbn [guard bind].
    replace (0 <=? instances)%Z with false by (symmetry; apply Z.leb_gt; lia).
    reflexivity.
Qed.

End PadMaxInstances.

(** C9, as the code has it: for a valid axis and a count [instances >= 0]
    the result has exactly [instances] entries on the axis and the original
    size on every other axis; it keeps the leading entries of [value] (at
    most [instances] of them) and holds [pad_value] behind them.  With
    [instances = 0] all entries are dropped.  A negative count does not
    degrade to that: [tf.split] rejects it. *)
Theorem pad_max_instances_exact_size {A} (value : tensor A) (instances : Z)
    (pad_value : A) (pad_axis : Z) :
  (- Z.of_nat (rank value) <= pad_axis < Z.of_nat (rank value))%Z ->
  Forall (fun d => Int32.in_range (Z.of_nat d)) (shape value) ->
  Int32.in_range instances ->
  ((0 <= instances)%Z ->
   exists out : tensor A,
     pad_max_instances value instances pad_value pad_axis = Ok out /\
     length (shape out) = rank value /\
     nth (axis_of (rank value) pad_axis) (shape out) 0 = Z.to_nat instances /\
     (forall k : nat,
         k <> axis_of (rank value) pad_axis ->
         nth k (shape out) 0 = nth k (shape value) 0) /\
     (forall idx : list nat,
         nth (axis_of (rank value) pad_axis) idx 0 < Z.to_nat instances ->
         get out idx
         = if nth (axis_of (rank value) pad_axis) idx 0
              <? nth (axis_of (rank value) pad_axis) (shape value) 0
           then get value idx else pad_value)) /\
  ((instances < 0)%Z ->
   pad_max_instances value instances pad_value pad_axis = Err BadSplit).
Proof.
  intros Haxis Hdims Hinst. split.
  - intros Hpos.
    destruct (@pad_max_instances_nonneg A value instances pad_value pad_axis
                Haxis Hdims Hinst Hpos)
      as (out & Hout & Hshape & Hget).
    pose proof (@ax_lt A value pad_axis Haxis) as Hax.
    exists out. split; [exact Hout |]. rewrite Hshape.
    split; [apply length_set_nth |].
    split; [apply nth_set_nth_eq; exact Hax |].
    split; [intros k Hk; now apply nth_set_nth_neq |].
    exact Hget.
  - intros Hneg. now apply pad_max_instances_negative.
Qed.

Lemma pad_max_instances_exact_size_witness :
  exists out : tensor Z,
    pad_max_instances (of_list 0%Z [1; 2]%Z) 5 0%Z (-1) = Ok out /\
    shape out = [5] /\
    to_list out = [1; 2; 0; 0; 0]%Z.
Proof.
  assert (Haxis : (- Z.of_nat (rank (of_list 0%Z [1; 2]%Z)) <= -1
                   < Z.of_nat (rank (of_list 0%Z [1; 2]%Z)))%Z)
    by (cbn; lia).
  assert (Hdims : Forall (fun d => Int32.in_range (Z.of_nat d))
                         (shape (of_list 0%Z [1; 2]%Z))).
  { repeat constructor; cbn; lia. }
  assert (Hinst : Int32.in_range 5) by (split; cbn; lia).
  destruct (proj1 (@pad_max_instances_exact_size
                     Z (of_list 0%Z [1; 2]%Z) 5 0%Z (-1) Haxis Hdims Hinst))
    as (out & Hout & _); [lia |].
  exists out. split; [exact Hout |].
  vm_compute in Hout. injection Hout as <-.
  split; reflexivity.
Defined.

(** C9 fails as stated: with a negative count the call raises instead of
    dropping every entry. *)
Lemma pad_max_instances_negative_count_raises :
  pad_max_instances (of_list 0%Z [1; 2; 3; 4; 5]%Z) (-1) 0%Z 0 = Err BadSplit /\
  pad_max_instances (of_list 0%Z [1; 2; 3; 4; 5]%Z) (-3) 0%Z 0 = Err BadSplit.
Proof.
  split; reflexivity.
Qed.

(** ** [tf.tensor_scatter_nd_update] *)

Section ScatterFold.
Context {A : Type}.
Variables (row : nat -> list Z) (u : nat -> A) (g0 : list nat -> A).


Lemma upd_succ (N : nat) (idx : list nat) :
  scatter_fold row u g0 (S N) idx
  = if list_eqb Z.eqb (row N) (map Z.of_nat idx) then u N else scatter_fold row u g0 N idx.
Proof.
  unfold scatter_fold. rewrite seq_S, fold_left_app. reflexivity.
Qed.

Lemma row_eqb_false (k : nat) (idx : list nat) :
  row k <> map Z.of_nat idx ->
  list_eqb Z.eqb (row k) (map Z.of_nat idx) = false.
Proof.
  intros Hne. apply not_true_is_false. intros E. apply Hne.
  apply (list_eqb_eq Z.eqb); [apply Z.eqb_eq | exact E].
Qed.

(** A cell no index row addresses keeps its value. *)
Lemma upd_miss (N : nat) (idx : list nat) :
  (forall k, k < N -> row k <> map Z.of_nat idx) -> scatter_fold row u g0 N idx = g0 idx.
Proof.
  induction N as [| N IH]; intros Hmiss; [reflexivity |].
  rewrite upd_succ, row_eqb_false by (apply Hmiss; lia).
  apply IH. intros k Hk. apply Hmiss. lia.
Qed.

(** A cell takes the update of the last index row that addresses it. *)
Lemma upd_hit (N k : nat) (idx : list nat) :
  k < N -> row k = map Z.of_nat idx ->
  (forall k', k < k' < N -> row k' <> map Z.of_nat idx) ->
  scatter_fold row u g0 N idx = u k.
Proof.
  induction N as [| N IH]; intros Hk Hrow Hlast; [lia |].
  rewrite upd_succ. destruct (Nat.eq_dec k N) as [-> | Hne].
  - rewrite Hrow, list_eqb_refl by apply Z.eqb_refl. reflexivity.
  - rewrite row_eqb_false by (apply Hlast; lia).
    apply IH; [lia | exact Hrow |]. intros k' Hk'. apply Hlast. lia.
Qed.

End ScatterFold.

Lemma tf_tensor_scatter_nd_update_ok {A}
    (t : tensor A) (indices : tensor Z) (updates : tensor A) (N : nat) :
  shape indices = [N; rank t] ->
  shape updates = [N] ->
  (forall k, k < N -> index_in_bounds (shape t) (row_of indices k) = true) ->
  exists out : tensor A,
    tf_tensor_scatter_nd_update t indices updates = Ok out /\
    shape out = shape t /\
    (forall idx,
        (forall k, k < N -> row_of indices k <> map Z.of_nat idx) ->
        get out idx = get t idx) /\
    (forall idx k,
        k < N -> row_of indices k = map Z.of_nat idx ->
        (forall k', k < k' < N -> row_of indices k' <> map Z.of_nat idx) ->
        get out idx = get updates [k]).
Proof.
  intros Hi Hu Hb. unfold tf_tensor_scatter_nd_update.
  rewrite Hi, Hu. cbn [length nth]. rewrite !Nat.eqb_refl, shape_eqb_refl.
  cbn [andb guard bind].
  replace (forallb (fun k => index_in_bounds (shape t) (row_of indices k))
                   (seq 0 N)) with true.
  2:{ symmetry. apply forallb_forall. intros k Hk. apply in_seq in Hk.
      apply Hb. lia. }
  cbn [guard bind]. eexists. split; [reflexivity |]. cbn [shape get].
  split; [reflexivity |]. split.
  - intros idx Hmiss. now apply upd_miss.
  - intros idx k Hk Hrow Hlast.
    now apply (upd_hit (row_of indices) (fun k => get updates [k])).
Qed.

(** ** [draw_gaussian] *)

Lemma unravel2 (a b k : nat) : unravel [a; b] k = [k / b; k mod b].
Proof.
  cbn [unravel prod fold_right]. rewrite !Nat.mul_1_r, Nat.div_1_r. reflexivity.
Qed.

Lemma unravel3 (a b k : nat) : unravel [a; b; 1] k = [k / b; k mod b; 0].
Proof.
  cbn [unravel prod fold_right]. rewrite !Nat.mul_1_r, !Nat.div_1_r.
  rewrite Nat.mod_1_r. reflexivity.
Qed.

Lemma row_of_3 (t : tensor Z) (N k : nat) :
  shape t = [N; 3] -> row_of t k = [get t [k; 0]; get t [k; 1]; get t [k; 2]].
Proof.
  intros Hs. unfold row_of. rewrite Hs. reflexivity.
Qed.

Lemma draw_gaussian_args_ok (H W C cls x y r s : Z) :
  (0 <= H < 2 ^ 30)%Z -> (0 <= W < 2 ^ 30)%Z -> (0 <= C)%Z ->
  Int32.in_range cls ->
  (- 2 ^ 30 < x < 2 ^ 30)%Z -> (- 2 ^ 30 < y < 2 ^ 30)%Z ->
  (0 <= r < 2 ^ 30)%Z ->
  (0 <= margin_lo y r + margin_hi H y r)%Z ->
  (0 <= margin_lo x r + margin_hi W x r)%Z ->
  let nr := Z.to_nat (margin_lo y r + margin_hi H y r) in
  let nc := Z.to_nat (margin_lo x r + margin_hi W x r) in
  exists args : scatter_args,
    draw_gaussian_args [H; W; C] [cls; x; y; r] s = Ok args /\
    shape (sc_heatmap args) = [Z.to_nat H; Z.to_nat W; Z.to_nat C] /\
    (forall idx, get (sc_heatmap args) idx = Fin 0) /\
    shape (sc_indices args) = [nr * nc; 3] /\
    (forall k : nat,
        k < nr * nc ->
        row_of (sc_indices args) k
        = [y - margin_lo y r + Z.of_nat (k / nc);
           x - margin_lo x r + Z.of_nat (k mod nc); cls]%Z) /\
    shape (sc_updates args) = [nr * nc] /\
    (forall k : nat,
        k < nr * nc ->
        get (sc_updates args) [k]
        = fmul (kernel_at r (Z.to_nat (r - margin_lo y r) + k / nc)
                            (Z.to_nat (r - margin_lo x r) + k mod nc))
               (of_int s)).
Proof.
  intros HH HW HC Hcls Hx Hy Hr Hrows Hcols.
  unfold margin_lo, margin_hi in *.
  unfold draw_gaussian_args, tf_fill.
  cbn [forallb map].
  replace (0 <=? H)%Z with true by (symmetry; apply Z.leb_le; lia).
  replace (0 <=? W)%Z with true by (symmetry; apply Z.leb_le; lia).
  replace (0 <=? C)%Z with true by (symmetry; apply Z.leb_le; lia).
  cbn [andb guard bind].
  rewrite !wrap_id by in_range.
  rewrite !(py_index_ok 0%Z) by (cbn; lia).
  change (Z.to_nat 0) with 0. change (Z.to_nat 1) with 1.
  change (Z.to_nat 2) with 2. change (Z.to_nat 3) with 3.
  cbn [nth bind].
  destruct (gaussian_penalty_ok Hr) as (kern & Hk & Hks & Hkg).
  rewrite Hk. cbn [bind].
  rewrite !(@add_id r 1) by in_range.
  rewrite !(@sub_id H y), !(@sub_id W x) by in_range.
  rewrite !sub_id by in_range.
  rewrite !add_id by in_range.
  set (top := Z.min y r) in *. set (bottom := Z.min (H - y) (r + 1)) in *.
  set (left := Z.min x r) in *. set (right := Z.min (W - x) (r + 1)) in *.
  unfold tf_reshape, numel, slice2. rewrite Hks. cbn [nth shape].
  rewrite resolve_shape_flat. cbn [bind].
  rewrite !canonical_bound_id by (unfold top, bottom, left, right; lia).
  rewrite !tf_range_ok by (unfold top, bottom, left, right; lia). cbn [bind].
  replace (Z.to_nat (r + bottom) - Z.to_nat (r - top))
    with (Z.to_nat (top + bottom)) by (unfold top, bottom; lia).
  replace (Z.to_nat (r + right) - Z.to_nat (r - left))
    with (Z.to_nat (left + right)) by (unfold left, right; lia).
  replace (Z.to_nat (y + bottom - (y - top)))
    with (Z.to_nat (top + bottom)) by lia.
  replace (Z.to_nat (x + right - (x - left)))
    with (Z.to_nat (left + right)) by lia.
  set (nr := Z.to_nat (top + bottom)). set (nc := Z.to_nat (left + right)).
  set (rows := map (fun k : nat => (y - top + Z.of_nat k)%Z) (seq 0 nr)).
  set (cols := map (fun k : nat => (x - left + Z.of_nat k)%Z) (seq 0 nc)).
  destruct (@cartesian_product_ok [rows; cols; [cls]]) as (t & Ht & Hts & Htg);
    [discriminate |].
  rewrite Ht. cbn [bind].
  assert (Lr : length rows = nr) by (unfold rows; now rewrite length_map, length_seq).
  assert (Lc : length cols = nc) by (unfold cols; now rewrite length_map, length_seq).
  cbn [map length] in Hts, Htg. rewrite Lr, Lc in Hts, Htg.
  assert (P3 : prod [nr; nc; 1] = nr * nc) by (cbn; lia).
  assert (P2 : prod [nr; nc] = nr * nc) by (cbn; lia).
  rewrite P3 in Hts, Htg.
  eexists. split; [reflexivity |].
  cbn [sc_heatmap sc_indices sc_updates shape get tmap].
  split; [reflexivity |]. split; [reflexivity |].
  split; [exact Hts |]. split; [| split].
  - intros k Hk'. rewrite (@row_of_3 t (nr * nc) k Hts).
    assert (Hnc : 0 < nc) by nia.
    assert (Hq : k / nc < nr) by (apply Nat.Div0.div_lt_upper_bound; lia).
    assert (Hm : k mod nc < nc) by (apply Nat.mod_upper_bound; lia).
    rewrite !Htg by lia. rewrite unravel3. cbn [nth].
    unfold rows, cols. rewrite !nth_map_seq by assumption. reflexivity.
  - now rewrite P2.
  - intros k Hk'. f_equal.
    assert (Hnc : 0 < nc) by nia.
    assert (Hq : k / nc < nr) by (apply Nat.Div0.div_lt_upper_bound; lia).
    assert (Hm : k mod nc < nc) by (apply Nat.mod_upper_bound; lia).
    replace (ravel [prod [nr; nc]] [k]) with k by (cbn; lia).
    rewrite unravel2. cbn [nth].
    apply Hkg; unfold nr, nc, top, bottom, left, right in *; lia.
Qed.

Lemma flat_index (nc a b : nat) :
  b < nc -> (a * nc + b) / nc = a /\ (a * nc + b) mod nc = b.
Proof.
  intros Hb. split.
  - symmetry. apply (Nat.div_unique _ _ _ b); lia.
  - symmetry. apply (Nat.mod_unique _ _ a); lia.
Qed.

Lemma flat_index_bound (nr nc a b : nat) :
  a < nr -> b < nc -> a * nc + b < nr * nc.
Proof.
  intros Ha Hb.
  assert (Hle : S a * nc <= nr * nc) by (apply Nat.mul_le_mono_r; lia).
  cbn [Nat.mul] in Hle. lia.
Qed.

Lemma draw_gaussian_clipped (H W C cls x y r s : Z) :
  (0 <= H < 2 ^ 30)%Z -> (0 <= W < 2 ^ 30)%Z -> (0 <= C)%Z ->
  Int32.in_range cls ->
  (- 2 ^ 30 < x < 2 ^ 30)%Z -> (- 2 ^ 30 < y < 2 ^ 30)%Z ->
  (0 <= r < 2 ^ 30)%Z ->
  (0 <= margin_lo y r + margin_hi H y r)%Z ->
  (0 <= margin_lo x r + margin_hi W x r)%Z ->
  ((0 <= cls < C)%Z \/
   (margin_lo y r + margin_hi H y r = 0)%Z \/
   (margin_lo x r + margin_hi W x r = 0)%Z) ->
  exists hm : tensor tfloat,
    draw_gaussian [H; W; C] [cls; x; y; r] s = Ok hm /\
    shape hm = [Z.to_nat H; Z.to_nat W; Z.to_nat C] /\
    (forall i j c : nat,
        get hm [i; j; c]
        = if in_clipped H W cls x y r i j c
          then fmul (kernel_at r (Z.to_nat (Z.of_nat i - y + r))
                                 (Z.to_nat (Z.of_nat j - x + r)))
                    (of_int s)
          else Fin 0) /\
    ((margin_lo y r + margin_hi H y r = 0)%Z \/
     (margin_lo x r + margin_hi W x r = 0)%Z ->
     forall idx, get hm idx = Fin 0).
Proof.
  intros HH HW HC Hcls Hx Hy Hr Hrows Hcols Hclass.
  destruct (@draw_gaussian_args_ok H W C cls x y r s)
    as (args & Hargs & Hzs & Hzg & His & Hig & Hus & Hug); try assumption.
  unfold draw_gaussian. rewrite Hargs. cbn [bind].
  set (top := margin_lo y r) in *. set (bottom := margin_hi H y r) in *.
  set (left := margin_lo x r) in *. set (right := margin_hi W x r) in *.
  set (nr := Z.to_nat (top + bottom)) in *.
  set (nc := Z.to_nat (left + right)) in *.
  assert (Btop : (top <= y /\ top <= r)%Z) by (unfold top, margin_lo; lia).
  assert (Bbot : (bottom <= H - y /\ bottom <= r + 1)%Z)
    by (unfold bottom, margin_hi; lia).
  assert (Bleft : (left <= x /\ left <= r)%Z) by (unfold left, margin_lo; lia).
  assert (Bright : (right <= W - x /\ right <= r + 1)%Z)
    by (unfold right, margin_hi; lia).
  destruct (@tf_tensor_scatter_nd_update_ok _ (sc_heatmap args)
              (sc_indices args) (sc_updates args) (nr * nc))
    as (hm & Hhm & Hshape & Hmiss & Hhit).
  - unfold rank. rewrite Hzs. exact His.
  - exact Hus.
  - intros k Hk. rewrite Hig by exact Hk. rewrite Hzs.
    assert (Hnc : 0 < nc) by nia.
    assert (Hq : k / nc < nr) by (apply Nat.Div0.div_lt_upper_bound; lia).
    assert (Hm : k mod nc < nc) by (apply Nat.mod_upper_bound; lia).
    assert (Hc : (0 <= cls < C)%Z) by (destruct Hclass as [? | [? | ?]]; [assumption | lia | lia]).
    unfold index_in_bounds. cbn [length combine forallb fst snd Nat.eqb andb].
    rewrite !Z2Nat.id by lia.
    repeat (apply andb_true_iff; split);
      try (apply Z.leb_le; lia); try (apply Z.ltb_lt; lia); reflexivity.
  - exists hm. split; [exact Hhm |]. split; [now rewrite Hshape |]. split.
    + intros i j c. unfold in_clipped. fold top bottom left right.
      destruct ((y - top <=? Z.of_nat i)%Z && (Z.of_nat i <? y + bottom)%Z
                && (x - left <=? Z.of_nat j)%Z && (Z.of_nat j <? x + right)%Z
                && (Z.of_nat c =? cls)%Z) eqn:E.
      * repeat (apply andb_true_iff in E; destruct E as [E ?]).
        apply Z.leb_le in E.
        repeat match goal with
               | Hb : (_ <? _)%Z = true |- _ => apply Z.ltb_lt in Hb
               | Hb : (_ <=? _)%Z = true |- _ => apply Z.leb_le in Hb
               | Hb : (_ =? _)%Z = true |- _ => apply Z.eqb_eq in Hb
               end.
        set (a := Z.to_nat (Z.of_nat i - (y - top))).
        set (b := Z.to_nat (Z.of_nat j - (x - left))).
        assert (Ha : a < nr) by (unfold a, nr; lia).
        assert (Hb : b < nc) by (unfold b, nc; lia).
        destruct (@flat_index nc a b Hb) as [Hq Hm].
        assert (Hk : a * nc + b < nr * nc) by (now apply flat_index_bound).
        rewrite (Hhit [i; j; c] (a * nc + b) Hk).
        -- rewrite Hug by exact Hk. rewrite Hq, Hm. f_equal. f_equal.
           ++ unfold a. lia.
           ++ unfold b. lia.
        -- rewrite Hig by exact Hk. rewrite Hq, Hm. cbn [map].
           unfold a, b. repeat f_equal; lia.
        -- intros k' Hk' Hrow. rewrite Hig in Hrow by lia. cbn [map] in Hrow.
           injection Hrow as E1 E2 _.
           assert (Hd : k' = nc * (k' / nc) + k' mod nc)
             by (apply Nat.div_mod; lia).
           assert (k' / nc = a) by (unfold a; lia).
           assert (k' mod nc = b) by (unfold b; lia).
           nia.
      * rewrite Hmiss; [apply Hzg |].
        intros k Hk Hrow. rewrite Hig in Hrow by exact Hk. cbn [map] in Hrow.
        injection Hrow as E1 E2 E3.
        assert (Hnc : 0 < nc) by nia.
        assert (Hq : k / nc < nr) by (apply Nat.Div0.div_lt_upper_bound; lia).
        assert (Hm : k mod nc < nc) by (apply Nat.mod_upper_bound; lia).
        assert (T : ((y - top <=? Z.of_nat i)%Z && (Z.of_nat i <? y + bottom)%Z
                && (x - left <=? Z.of_nat j)%Z && (Z.of_nat j <? x + right)%Z
                && (Z.of_nat c =? cls)%Z) = true).
        { repeat (apply andb_true_iff; split);
            try (apply Z.leb_le; lia); try (apply Z.ltb_lt; lia);
            apply Z.eqb_eq; lia. }
        congruence.
    + intros Hzero idx. rewrite Hmiss; [apply Hzg |].
      intros k Hk. assert (nr * nc = 0) by (unfold nr, nc; destruct Hzero; lia).
      lia.
Qed.

Lemma fmul_pos_nonzero (v : R) (s : Z) :
  (0 < v)%R -> s <> 0%Z -> fmul (Fin v) (of_int s) <> Fin 0.
Proof.
  intros Hv Hs. unfold of_int. cbn [fmul]. intros E. injection E as E.
  assert (IZR s <> 0%R) by (apply not_0_IZR; exact Hs).
  apply Rmult_integral in E. destruct E; [lra | contradiction].
Qed.

Lemma fmul_zero (v : R) : fmul (Fin v) (of_int 0) = Fin 0.
Proof. unfold of_int. cbn [fmul]. f_equal. ring. Qed.

Lemma in_clipped_inside (H W cls x y r : Z) (i j c : nat) :
  (r <= x < W - r)%Z -> (r <= y < H - r)%Z ->
  in_clipped H W cls x y r i j c = in_block cls x y r i j c.
Proof.
  intros Hx Hy. unfold in_clipped, in_block, margin_lo, margin_hi.
  rewrite !Z.min_r by lia.
  replace (Z.of_nat i <? y + (r + 1))%Z with (Z.of_nat i <=? y + r)%Z
    by (destruct (Z.leb_spec (Z.of_nat i) (y + r));
        destruct (Z.ltb_spec (Z.of_nat i) (y + (r + 1))); (reflexivity || lia)).
  replace (Z.of_nat j <? x + (r + 1))%Z with (Z.of_nat j <=? x + r)%Z
    by (destruct (Z.leb_spec (Z.of_nat j) (x + r));
        destruct (Z.ltb_spec (Z.of_nat j) (x + (r + 1))); (reflexivity || lia)).
  reflexivity.
Qed.

(** C1, as the code has it: for a blob whose footprint lies inside the
    heatmap ([radius >= 1], [radius <= x < W - radius - 1],
    [radius <= y < H - radius - 1], [0 <= class < C]) [draw_gaussian] returns
    an (H, W, C) buffer in which every cell of the (2r+1) x (2r+1) block
    centered at [(y, x)] in channel [class] holds the kernel value at the
    same offset times [scaling_factor], and every other cell is exactly zero;
    when [scaling_factor] is not zero the nonzero cells are exactly that
    block.  Sizes are below 2^30, so that no int32 operation wraps. *)
Theorem draw_gaussian_inside (H W C cls x y r s : Z) :
  (0 <= H < 2 ^ 30)%Z -> (0 <= W < 2 ^ 30)%Z -> (0 <= cls < C)%Z ->
  (C < 2 ^ 31)%Z -> (1 <= r)%Z ->
  (r <= x < W - r - 1)%Z -> (r <= y < H - r - 1)%Z ->
  exists hm : tensor tfloat,
    draw_gaussian [H; W; C] [cls; x; y; r] s = Ok hm /\
    shape hm = [Z.to_nat H; Z.to_nat W; Z.to_nat C] /\
    (forall i j c : nat,
        get hm [i; j; c]
        = if in_block cls x y r i j c
          then fmul (kernel_at r (Z.to_nat (Z.of_nat i - y + r))
                                 (Z.to_nat (Z.of_nat j - x + r)))
                    (of_int s)
          else Fin 0) /\
    (s <> 0%Z ->
     forall i j c : nat,
       get hm [i; j; c] <> Fin 0 <-> in_block cls x y r i j c = true).
Proof.
  intros HH HW Hcls HC Hr Hx Hy.
  destruct (@draw_gaussian_clipped H W C cls x y r s)
    as (hm & Hhm & Hshape & Hget & _);
    try (unfold margin_lo, margin_hi, Int32.in_range, Int32.half; lia).
  assert (Hcell : forall i j c : nat,
        get hm [i; j; c]
        = if in_block cls x y r i j c
          then fmul (kernel_at r (Z.to_nat (Z.of_nat i - y + r))
                                 (Z.to_nat (Z.of_nat j - x + r)))
                    (of_int s)
          else Fin 0).
  { intros i j c. rewrite Hget. rewrite in_clipped_inside by lia. reflexivity. }
  exists hm. split; [exact Hhm |]. split; [exact Hshape |].
  split; [exact Hcell |].
  intros Hs i j c. rewrite Hcell.
  destruct (in_block cls x y r i j c).
  - destruct (@kernel_at_pos r (Z.to_nat (Z.of_nat i - y + r))
                (Z.to_nat (Z.of_nat j - x + r)) Hr) as (v & -> & Hv).
    split; [reflexivity |]. intros _. now apply fmul_pos_nonzero.
  - split; [intros N; now elim N | discriminate].
Qed.

Lemma draw_gaussian_inside_witness :
  exists hm : tensor tfloat,
    draw_gaussian [10; 10; 2]%Z [1; 4; 4; 1]%Z 1 = Ok hm /\
    shape hm = [Z.to_nat 10; Z.to_nat 10; Z.to_nat 2] /\
    (forall i j c : nat,
        get hm [i; j; c]
        = if in_block 1 4 4 1 i j c
          then fmul (kernel_at 1 (Z.to_nat (Z.of_nat i - 4 + 1))
                                 (Z.to_nat (Z.of_nat j - 4 + 1)))
                    (of_int 1)
          else Fin 0) /\
    (1%Z <> 0%Z ->
     forall i j c : nat,
       get hm [i; j; c] <> Fin 0 <-> in_block 1 4 4 1 i j c = true).
Proof.
  apply (@draw_gaussian_inside 10 10 2 1 4 4 1 1); lia.
Defined.

(** C1 fails as stated when [scaling_factor = 0]: the cells of the block are
    written, with the value zero, so no cell of the result is nonzero. *)
Lemma draw_gaussian_zero_scaling_block_is_zero :
  exists hm : tensor tfloat,
    draw_gaussian [10; 10; 2]%Z [1; 4; 4; 1]%Z 0 = Ok hm /\
    in_block 1 4 4 1 4 4 1 = true /\
    get hm [4; 4; 1] = Fin 0.
Proof.
  destruct (@draw_gaussian_clipped 10 10 2 1 4 4 1 0)
    as (hm & Hhm & _ & Hget & _);
    try (unfold margin_lo, margin_hi, Int32.in_range, Int32.half; lia).
  exists hm. split; [exact Hhm |]. split; [reflexivity |].
  rewrite Hget.
  change (in_clipped 10 10 1 4 4 1 4 4 1) with true. cbv iota.
  destruct (@kernel_at_pos 1 (Z.to_nat (Z.of_nat 4 - 4 + 1))
              (Z.to_nat (Z.of_nat 4 - 4 + 1))) as (v & -> & _); [lia |].
  apply fmul_zero.
Qed.

Lemma length_to_rows {A} (t : tensor A) :
  length (to_rows t) = nth 0 (shape t) 0.
Proof. unfold to_rows. now rewrite length_map, length_seq. Qed.

Lemma length_to_list {A} (t : tensor A) :
  length (to_list t) = nth 0 (shape t) 0.
Proof. unfold to_list. now rewrite length_map, length_seq. Qed.

(** C4, as the code has it: when both margin sums [top + bottom] and
    [left + right] are non-negative the index list and the value list are
    built without raising and have the same length, the product of the two
    sums; when one of the sums is zero (the footprint ends exactly at a
    border of the heatmap) both lists are empty and the all-zero heatmap is
    returned.  Coordinates are below 2^30 in absolute value, so that no int32
    operation wraps. *)
Theorem draw_gaussian_empty_scatter (H W C cls x y r s : Z) :
  (0 <= H < 2 ^ 30)%Z -> (0 <= W < 2 ^ 30)%Z -> (0 <= C)%Z ->
  Int32.in_range cls ->
  (- 2 ^ 30 < x < 2 ^ 30)%Z -> (- 2 ^ 30 < y < 2 ^ 30)%Z ->
  (0 <= r < 2 ^ 30)%Z ->
  (0 <= margin_lo y r + margin_hi H y r)%Z ->
  (0 <= margin_lo x r + margin_hi W x r)%Z ->
  exists args : scatter_args,
    draw_gaussian_args [H; W; C] [cls; x; y; r] s = Ok args /\
    length (to_rows (sc_indices args))
    = Z.to_nat (margin_lo y r + margin_hi H y r)
      * Z.to_nat (margin_lo x r + margin_hi W x r) /\
    length (to_list (sc_updates args)) = length (to_rows (sc_indices args)) /\
    ((margin_lo y r + margin_hi H y r = 0)%Z \/
     (margin_lo x r + margin_hi W x r = 0)%Z ->
     to_rows (sc_indices args) = [] /\
     to_list (sc_updates args) = [] /\
     exists hm : tensor tfloat,
       draw_gaussian [H; W; C] [cls; x; y; r] s = Ok hm /\
       shape hm = [Z.to_nat H; Z.to_nat W; Z.to_nat C] /\
       forall idx, get hm idx = Fin 0).
Proof.
  intros HH HW HC Hcls Hx Hy Hr Hrows Hcols.
  destruct (@draw_gaussian_args_ok H W C cls x y r s)
    as (args & Hargs & _ & _ & His & _ & Hus & _); try assumption.
  exists args. split; [exact Hargs |].
  assert (Li : length (to_rows (sc_indices args))
               = Z.to_nat (margin_lo y r + margin_hi H y r)
                 * Z.to_nat (margin_lo x r + margin_hi W x r))
    by (rewrite length_to_rows, His; reflexivity).
  assert (Lu : length (to_list (sc_updates args))
               = length (to_rows (sc_indices args)))
    by (rewrite Li, length_to_list, Hus; reflexivity).
  split; [exact Li |]. split; [exact Lu |].
  intros Hzero.
  assert (Z0 : length (to_rows (sc_indices args)) = 0)
    by (rewrite Li; destruct Hzero as [E | E]; rewrite E; cbn; lia).
  split; [now apply length_zero_iff_nil |].
  split; [apply length_zero_iff_nil; now rewrite Lu |].
  destruct (@draw_gaussian_clipped H W C cls x y r s)
    as (hm & Hhm & Hshape & _ & Hall); try assumption.
  - right. exact Hzero.
  - exists hm. split; [exact Hhm |]. split; [exact Hshape |].
    now apply Hall.
Qed.

Lemma draw_gaussian_empty_scatter_witness :
  exists args : scatter_args,
    draw_gaussian_args [10; 10; 2]%Z [1; 4; 12; 2]%Z 1 = Ok args /\
    length (to_rows (sc_indices args))
    = Z.to_nat (margin_lo 12 2 + margin_hi 10 12 2)
      * Z.to_nat (margin_lo 4 2 + margin_hi 10 4 2) /\
    length (to_list (sc_updates args)) = length (to_rows (sc_indices args)) /\
    ((margin_lo 12 2 + margin_hi 10 12 2 = 0)%Z \/
     (margin_lo 4 2 + margin_hi 10 4 2 = 0)%Z ->
     to_rows (sc_indices args) = [] /\
     to_list (sc_updates args) = [] /\
     exists hm : tensor tfloat,
       draw_gaussian [10; 10; 2]%Z [1; 4; 12; 2]%Z 1 = Ok hm /\
       shape hm = [Z.to_nat 10; Z.to_nat 10; Z.to_nat 2] /\
       forall idx, get hm idx = Fin 0).
Proof.
  apply (@draw_gaussian_empty_scatter 10 10 2 1 4 12 2 1);
    unfold margin_lo, margin_hi, Int32.in_range, Int32.half; lia.
Defined.

(** C4 fails as stated.  A center outside the heatmap whose footprint still
    reaches into it ([x = -1], [radius = 2]) is drawn clipped: ten index
    rows, ten values and a nonzero cell.  A center further out than the
    radius ([y = 14] on a height of 10, [radius = 2]) makes [tf.range]
    raise. *)
Lemma draw_gaussian_center_outside_not_empty :
  (exists (args : scatter_args) (hm : tensor tfloat),
      draw_gaussian_args [10; 10; 2]%Z [1; -1; 4; 2]%Z 1 = Ok args /\
      to_rows (sc_indices args)
      = [[2; 0; 1]; [2; 1; 1]; [3; 0; 1]; [3; 1; 1]; [4; 0; 1]; [4; 1; 1];
         [5; 0; 1]; [5; 1; 1]; [6; 0; 1]; [6; 1; 1]]%Z /\
      length (to_list (sc_updates args)) = 10 /\
      draw_gaussian [10; 10; 2]%Z [1; -1; 4; 2]%Z 1 = Ok hm /\
      get hm [4; 0; 1] <> Fin 0) /\
  draw_gaussian [10; 10; 2]%Z [1; 4; 14; 2]%Z 1 = Err InvalidRange.
Proof.
  split.
  - destruct (@draw_gaussian_clipped 10 10 2 1 (-1) 4 2 1)
      as (hm & Hhm & _ & Hget & _);
      try (unfold margin_lo, margin_hi, Int32.in_range, Int32.half; lia).
    eexists. exists hm. split; [reflexivity |].
    split; [vm_compute; reflexivity |].
    split; [vm_compute; reflexivity |].
    split; [exact Hhm |].
    rewrite Hget.
    change (in_clipped 10 10 1 (-1) 4 2 4 0 1) with true. cbv iota.
    destruct (@kernel_at_pos 2 (Z.to_nat (Z.of_nat 4 - 4 + 2))
                (Z.to_nat (Z.of_nat 0 - -1 + 2))) as (v & -> & Hv); [lia |].
    apply fmul_pos_nonzero; [exact Hv | discriminate].
  - reflexivity.
Qed.

(* ================================================================== *)
(** ** [gaussian_radius] *)

(** *** The order of IEEE numbers *)










(** *** Broadcasting *)








(** *** [gaussian_radius] on float32 tensors *)









(** C6: with height > 0, width > 0 and 0 < min_overlap <= 1 the code does
    produce NaNs and negative radii.  On the float32 sizes 931.91473 and
    931.91492 with min_overlap 6.5e-9 the radicands of cases 1 and 2 are
    -0.25 and -1 and both roots are NaN.  On the Python floats
    (229.37, 77.27) with min_overlap 1.0 the radius returned is -2^-15, and
    on the integers (1, 701294380) with the default min_overlap it is
    -32. *)
Theorem gaussian_radius_nan_and_negative :
  let h := Tf32 (scalar32 f32_931_9147) in
  let w := Tf32 (scalar32 f32_931_9149) in
  let m := Tf32 (scalar32 f32_6_5e_9) in
  (is_positive f32_931_9147 = true /\ is_positive f32_931_9149 = true /\
   is_positive f32_6_5e_9 = true /\ SFleb f32_6_5e_9 (F32.of_Z 1) = true) /\
  radicand_value (coeffs1 h w m) = Some (S754_finite true 8388608 (-25)) /\
  radicand_value (coeffs2 h w m) = Some (S754_finite true 8388608 (-23)) /\
  scalar_value (case1 h w m) = Some S754_nan /\
  scalar_value (case2 h w m) = Some S754_nan /\
  scalar_value (gaussian_radius (DetSeq [PyFloat py_229_37; PyFloat py_77_27])
                                (PyFloat py_1_0))
  = Some (S754_finite true 8388608 (-38)) /\
  scalar_value (gaussian_radius (DetSeq [PyInt 1; PyInt 701294380])
                                default_min_overlap)
  = Some (S754_finite true 8388608 (-18)).
Proof. vm_compute. repeat split; reflexivity. Qed.

(** *** Conversion of a Python [int] to a [float] *)






(** *** [min_overlap = 1.0] *)










Section OverlapOne.

Variables h w : Z.
Hypothesis Hh : (1 <= h <= 1024)%Z.
Hypothesis Hw : (1 <= w <= 1024)%Z.





End OverlapOne.




(* ================================================================== *)
(** * Further properties of the same functions *)

(** ** More on [_gaussian_penalty] *)

(** Any cell of the kernel function, also off the patch, is in (0, 1]. *)
Lemma kernel_at_unit (r : Z) (i j : nat) :
  (1 <= r)%Z -> exists v : R, kernel_at r i j = Fin v /\ (0 < v <= 1)%R.
Proof.
  intros Hr. unfold kernel_at, penalty_cell, fpow2, of_int.
  cbn [fmul fsub fneg fadd].
  assert (Hs : (0 < IZR r)%R) by (apply IZR_lt; lia).
  rewrite fdiv_fin by nra.
  cbn [fexp]. eexists. split; [reflexivity |]. split; [apply exp_pos |].
  set (a := IZR (Z.of_nat i - r)). set (b := IZR (Z.of_nat j - r)).
  rewrite <- exp_0.
  assert (Hle : ((-1 * (a * a) + - (b * b))
                 / (2 * (IZR r / 3 * (IZR r / 3))) <= 0)%R).
  { pose proof (Rle_0_sqr a) as Sa. pose proof (Rle_0_sqr b) as Sb.
    unfold Rsqr in Sa, Sb.
    assert (Hden : (0 < / (2 * (IZR r / 3 * (IZR r / 3))))%R)
      by (apply Rinv_0_lt_compat; nra).
    unfold Rdiv at 1.
    replace 0%R with (0 * / (2 * (IZR r / 3 * (IZR r / 3))))%R by ring.
    apply Rmult_le_compat_r; lra. }
  destruct Hle as [Hlt | ->]; [left; now apply exp_increasing | apply Rle_refl].
Qed.

(** X4: for a radius [r >= 1] every cell of the patch is a finite number in
    (0, 1], and the center holds exactly 1: the peak of the patch. *)
Theorem gaussian_penalty_values (r : Z) :
  (1 <= r < 2 ^ 30)%Z ->
  exists k : tensor tfloat,
    _gaussian_penalty r = Ok k /\
    (forall i j : nat,
        i < Z.to_nat (2 * r + 1) -> j < Z.to_nat (2 * r + 1) ->
        exists v : R, get k [i; j] = Fin v /\ (0 < v <= 1)%R) /\
    get k [Z.to_nat r; Z.to_nat r] = Fin 1.
Proof.
  intros Hr.
  destruct (@gaussian_penalty_ok r) as (k & Hk & _ & Hg); [lia |].
  exists k. split; [exact Hk |]. split.
  - intros i j Hi Hj. rewrite Hg by assumption.
    apply kernel_at_unit. lia.
  - rewrite Hg by lia. apply kernel_at_center. lia.
Qed.

Lemma gaussian_penalty_values_witness :
  exists k : tensor tfloat,
    _gaussian_penalty 3 = Ok k /\
    (forall i j : nat,
        i < Z.to_nat (2 * 3 + 1) -> j < Z.to_nat (2 * 3 + 1) ->
        exists v : R, get k [i; j] = Fin v /\ (0 < v <= 1)%R) /\
    get k [Z.to_nat 3; Z.to_nat 3] = Fin 1.
Proof.
  apply (@gaussian_penalty_values 3). lia.
Defined.

Lemma penalty_cell_swap (s : tfloat) (a b : Z) :
  penalty_cell s (of_int a) (of_int b) = penalty_cell s (of_int b) (of_int a).
Proof.
  unfold penalty_cell, fpow2, of_int. cbn [fmul fsub fneg fadd].
  do 2 f_equal. f_equal. ring.
Qed.

(** X5: the patch is unchanged by transposition and by mirroring its rows
    or its columns about the center. *)
Theorem gaussian_penalty_mirror_transpose (r : Z) :
  (0 <= r < 2 ^ 30)%Z ->
  exists k : tensor tfloat,
    _gaussian_penalty r = Ok k /\
    forall i j : nat,
      i < Z.to_nat (2 * r + 1) -> j < Z.to_nat (2 * r + 1) ->
      get k [j; i] = get k [i; j] /\
      get k [2 * Z.to_nat r - i; j] = get k [i; j] /\
      get k [i; 2 * Z.to_nat r - j] = get k [i; j].
Proof.
  intros Hr.
  destruct (@gaussian_penalty_ok r Hr) as (k & Hk & _ & Hg).
  exists k. split; [exact Hk |]. intros i j Hi Hj.
  rewrite !Hg by lia. unfold kernel_at. split; [| split].
  - apply penalty_cell_swap.
  - replace (Z.of_nat (2 * Z.to_nat r - i) - r)%Z
      with (- (Z.of_nat i - r))%Z by lia.
    unfold penalty_cell. now rewrite fpow2_of_int_opp.
  - replace (Z.of_nat (2 * Z.to_nat r - j) - r)%Z
      with (- (Z.of_nat j - r))%Z by lia.
    unfold penalty_cell. now rewrite fpow2_of_int_opp.
Qed.

Lemma gaussian_penalty_mirror_transpose_witness :
  exists k : tensor tfloat,
    _gaussian_penalty 2 = Ok k /\
    forall i j : nat,
      i < Z.to_nat (2 * 2 + 1) -> j < Z.to_nat (2 * 2 + 1) ->
      get k [j; i] = get k [i; j] /\
      get k [2 * Z.to_nat 2 - i; j] = get k [i; j] /\
      get k [i; 2 * Z.to_nat 2 - j] = get k [i; j].
Proof.
  apply (@gaussian_penalty_mirror_transpose 2). lia.
Defined.

(** X6: a negative radius makes [tf.range(width)] fail, with
    [width = 2 * radius + 1 < 0]: the kernel generator raises instead of
    returning an empty patch. *)
Theorem gaussian_penalty_negative_radius (r : Z) :
  (- 2 ^ 30 <= r < 0)%Z -> _gaussian_penalty r = Err InvalidRange.
Proof.
  intros Hr. unfold _gaussian_penalty.
  rewrite mul_id by in_range. rewrite add_id by in_range.
  unfold tf_range.
  replace (0 <=? 2 * r + 1)%Z with false by (symmetry; apply Z.leb_gt; lia).
  reflexivity.
Qed.

Lemma gaussian_penalty_negative_radius_witness :
  _gaussian_penalty (-1) = Err InvalidRange.
Proof.
  apply (@gaussian_penalty_negative_radius (-1)). lia.
Defined.

(** ** More on [cartesian_product] *)

Lemma cartesian_product_repeat (ts : list (list Z)) (k : Z) :
  cartesian_product ts k = cartesian_product (tuple_repeat ts k) 1.
Proof.
  unfold cartesian_product. now rewrite tuple_repeat_one.
Qed.

Lemma cartesian_product_rows (ts : list (list Z)) :
  ts <> [] ->
  exists t : tensor Z,
    cartesian_product ts 1 = Ok t /\
    shape t = [prod (map (@length Z) ts); length ts] /\
    to_rows t = lex_product ts.
Proof.
  intros Hne.
  destruct (cartesian_product_ok Hne) as (t & Ht & Hs & Hg).
  exists t. split; [exact Ht |]. split; [exact Hs |].
  unfold to_rows. rewrite Hs. cbn [nth].
  transitivity (map (fun r => nth r (lex_product ts) [])
                    (seq 0 (length (lex_product ts))));
    [| apply map_nth_seq].
  rewrite length_lex_product.
  apply map_ext_in. intros r Hr. apply in_seq in Hr.
  rewrite (nth_lex_product 0%Z) by lia.
  rewrite <- select_as_map by (rewrite length_unravel; apply length_map).
  apply map_ext_in. intros c Hc. apply in_seq in Hc.
  apply Hg; lia.
Qed.


Lemma tuple_repeat_nonempty {A} (xs : list A) (k : Z) :
  xs <> [] -> (1 <= k)%Z -> tuple_repeat xs k <> [].
Proof.
  unfold tuple_repeat. intros Hne Hk.
  destruct (Z.to_nat k) as [| n] eqn:E; [lia |].
  cbn [repeat concat]. destruct xs; [congruence | discriminate].
Qed.

Lemma length_tuple_repeat {A} (xs : list A) (k : Z) :
  length (tuple_repeat xs k) = Z.to_nat k * length xs.
Proof.
  unfold tuple_repeat. induction (Z.to_nat k) as [| n IH]; [reflexivity |].
  cbn [repeat concat]. rewrite length_app, IH. lia.
Qed.

(** X8: with [repeat = k >= 1] the table is the lexicographic product of
    the sequences written [k] times in a row, with [k * n] columns. *)
Theorem cartesian_product_with_repeat (ts : list (list Z)) (k : Z) :
  ts <> [] -> (1 <= k)%Z ->
  exists t : tensor Z,
    cartesian_product ts k = Ok t /\
    shape t = [length (lex_product (tuple_repeat ts k));
               Z.to_nat k * length ts] /\
    to_rows t = lex_product (tuple_repeat ts k).
Proof.
  intros Hne Hk. rewrite cartesian_product_repeat.
  destruct (@cartesian_product_rows (tuple_repeat ts k)
              (@tuple_repeat_nonempty _ ts k Hne Hk))
    as (t & Ht & Hs & Hr).
  exists t. split; [exact Ht |]. split; [| exact Hr].
  now rewrite Hs, length_lex_product, length_tuple_repeat.
Qed.

Lemma cartesian_product_with_repeat_witness :
  exists t : tensor Z,
    cartesian_product [[0; 1]]%Z 2 = Ok t /\
    shape t = [length (lex_product (tuple_repeat [[0; 1]]%Z 2));
               Z.to_nat 2 * length [[0; 1]]%Z] /\
    to_rows t = lex_product (tuple_repeat [[0; 1]]%Z 2).
Proof.
  apply cartesian_product_with_repeat; [discriminate | lia].
Defined.

Lemma prod_zero (dims : list nat) : In 0 dims -> prod dims = 0.
Proof.
  induction dims as [| d ds IH]; intros Hin; [destruct Hin |].
  rewrite prod_cons. destruct Hin as [-> | Hin]; [reflexivity |].
  rewrite IH by exact Hin. lia.
Qed.

(** X9: the table has as many rows as the product of the lengths, every
    row has one entry per sequence, and an empty sequence gives an empty table
    of shape [(0, n)] rather than an error. *)
Theorem cartesian_product_row_count (ts : list (list Z)) :
  ts <> [] ->
  exists t : tensor Z,
    cartesian_product ts 1 = Ok t /\
    length (to_rows t) = prod (map (@length Z) ts) /\
    (forall row, In row (to_rows t) -> length row = length ts) /\
    (In [] ts -> to_rows t = [] /\ shape t = [0; length ts]).
Proof.
  intros Hne. destruct (@cartesian_product_rows ts Hne) as (t & Ht & Hs & Hr).
  exists t. split; [exact Ht |]. split; [| split].
  - now rewrite Hr, length_lex_product.
  - intros row Hin. rewrite Hr in Hin. apply in_lex_product in Hin.
    now apply Forall2_length in Hin.
  - intros Hempty.
    assert (Z0 : prod (map (@length Z) ts) = 0).
    { apply prod_zero. change 0 with (length (@nil Z)). now apply in_map. }
    split.
    + apply length_zero_iff_nil. now rewrite Hr, length_lex_product.
    + now rewrite Hs, Z0.
Qed.

Lemma cartesian_product_row_count_witness :
  exists t : tensor Z,
    cartesian_product [[5; 6]; []; [1; 2; 3]]%Z 1 = Ok t /\
    length (to_rows t) = prod (map (@length Z) [[5; 6]; []; [1; 2; 3]]%Z) /\
    (forall row, In row (to_rows t) -> length row = 3) /\
    (In [] [[5; 6]; []; [1; 2; 3]]%Z ->
     to_rows t = [] /\ shape t = [0; 3]).
Proof.
  apply (@cartesian_product_row_count [[5; 6]; []; [1; 2; 3]]%Z).
  discriminate.
Defined.

Lemma NoDup_map_cons {A} (x : A) (l : list (list A)) :
  NoDup l -> NoDup (map (cons x) l).
Proof.
  induction 1 as [| tl l Hn Hl IH]; cbn [map]; constructor; [| exact IH].
  intros Hin. apply in_map_iff in Hin as (tl' & E & Hin').
  injection E as ->. contradiction.
Qed.

Lemma NoDup_lex_product {A} (seqs : list (list A)) :
  Forall (@NoDup A) seqs -> NoDup (lex_product seqs).
Proof.
  induction seqs as [| s rest IH]; intros Hall.
  - cbn. constructor; [intros [] | constructor].
  - inversion Hall as [| s' rest' Hs Hrest]; subst.
    specialize (IH Hrest). cbn [lex_product].
    induction Hs as [| x s Hx Hs IHs]; cbn [flat_map]; [constructor |].
    apply NoDup_app.
    + now apply NoDup_map_cons.
    + apply IHs. constructor; assumption.
    + intros row Hin Hin'.
      apply in_map_iff in Hin as (tl & <- & _).
      apply in_flat_map in Hin' as (x' & Hx' & Hin').
      apply in_map_iff in Hin' as (tl' & E & _).
      injection E as -> _. contradiction.
Qed.

(** X10: when no sequence repeats an element, no row of the table is
    repeated. *)
Theorem cartesian_product_rows_distinct (ts : list (list Z)) :
  ts <> [] -> Forall (@NoDup Z) ts ->
  exists t : tensor Z,
    cartesian_product ts 1 = Ok t /\ NoDup (to_rows t).
Proof.
  intros Hne Hnd. destruct (@cartesian_product_rows ts Hne) as (t & Ht & _ & Hr).
  exists t. split; [exact Ht |]. rewrite Hr. now apply NoDup_lex_product.
Qed.

Lemma cartesian_product_rows_distinct_witness :
  exists t : tensor Z,
    cartesian_product [[0; 1]; [0; 1; 2]]%Z 1 = Ok t /\ NoDup (to_rows t).
Proof.
  apply cartesian_product_rows_distinct; [discriminate |].
  repeat constructor; cbn; intuition lia.
Defined.

(** ** More on [draw_gaussian] *)

Lemma tf_range_err (start limit : Z) :
  (limit < start)%Z -> tf_range start limit = Err InvalidRange.
Proof.
  intros Hlt. unfold tf_range.
  replace (start <=? limit)%Z with false by (symmetry; apply Z.leb_gt; lia).
  reflexivity.
Qed.

(** With the center inside the heatmap, the clipped footprint is the block
    cut at the borders. *)
Lemma in_clipped_center_inside (H W cls x y r : Z) (i j c : nat) :
  (0 <= x < W)%Z -> (0 <= y < H)%Z -> (0 <= r)%Z ->
  in_clipped H W cls x y r i j c
  = in_block cls x y r i j c
    && (Z.of_nat i <? H)%Z && (Z.of_nat j <? W)%Z.
Proof.
  intros Hx Hy Hr. apply Bool.eq_iff_eq_true.
  unfold in_clipped, in_block, margin_lo, margin_hi.
  rewrite !andb_true_iff, !Z.leb_le, !Z.ltb_lt, !Z.eqb_eq. lia.
Qed.

(** X11: for a center anywhere inside the heatmap and any radius [>= 0],
    also one that reaches over the borders, [draw_gaussian] does not raise:
    the cells of the block that lie inside the heatmap hold the kernel value
    at their offset times [scaling_factor], every other cell is zero. *)
Theorem draw_gaussian_clipped_at_border (H W C cls x y r s : Z) :
  (0 <= H < 2 ^ 30)%Z -> (0 <= W < 2 ^ 30)%Z ->
  (0 <= cls < C)%Z -> (C < 2 ^ 31)%Z ->
  (0 <= x < W)%Z -> (0 <= y < H)%Z -> (0 <= r < 2 ^ 30)%Z ->
  exists hm : tensor tfloat,
    draw_gaussian [H; W; C] [cls; x; y; r] s = Ok hm /\
    shape hm = [Z.to_nat H; Z.to_nat W; Z.to_nat C] /\
    forall i j c : nat,
      get hm [i; j; c]
      = if in_block cls x y r i j c
           && (Z.of_nat i <? H)%Z && (Z.of_nat j <? W)%Z
        then fmul (kernel_at r (Z.to_nat (Z.of_nat i - y + r))
                               (Z.to_nat (Z.of_nat j - x + r)))
                  (of_int s)
        else Fin 0.
Proof.
  intros HH HW Hcls HC Hx Hy Hr.
  destruct (@draw_gaussian_clipped H W C cls x y r s)
    as (hm & Hhm & Hshape & Hget & _);
    try (unfold margin_lo, margin_hi, Int32.in_range, Int32.half; lia).
  exists hm. split; [exact Hhm |]. split; [exact Hshape |].
  intros i j c. rewrite Hget.
  now rewrite in_clipped_center_inside by lia.
Qed.

Lemma draw_gaussian_clipped_at_border_witness :
  exists hm : tensor tfloat,
    draw_gaussian [10; 10; 2]%Z [1; 0; 0; 3]%Z 1 = Ok hm /\
    shape hm = [Z.to_nat 10; Z.to_nat 10; Z.to_nat 2] /\
    forall i j c : nat,
      get hm [i; j; c]
      = if in_block 1 0 0 3 i j c
           && (Z.of_nat i <? 10)%Z && (Z.of_nat j <? 10)%Z
        then fmul (kernel_at 3 (Z.to_nat (Z.of_nat i - 0 + 3))
                               (Z.to_nat (Z.of_nat j - 0 + 3)))
                  (of_int 1)
        else Fin 0.
Proof.
  apply (@draw_gaussian_clipped_at_border 10 10 2 1 0 0 3 1); lia.
Defined.



(** X13: a blob of radius 0 inside the heatmap writes NaN to its center
    cell, whatever the scaling factor, and leaves every other cell zero. *)
Theorem draw_gaussian_radius_zero_writes_nan (H W C cls x y s : Z) :
  (0 <= H < 2 ^ 30)%Z -> (0 <= W < 2 ^ 30)%Z ->
  (0 <= cls < C)%Z -> (C < 2 ^ 31)%Z ->
  (0 <= x < W)%Z -> (0 <= y < H)%Z ->
  exists hm : tensor tfloat,
    draw_gaussian [H; W; C] [cls; x; y; 0%Z] s = Ok hm /\
    get hm [Z.to_nat y; Z.to_nat x; Z.to_nat cls] = NaN /\
    forall i j c : nat,
      [i; j; c] <> [Z.to_nat y; Z.to_nat x; Z.to_nat cls] ->
      get hm [i; j; c] = Fin 0.
Proof.
  intros HH HW Hcls HC Hx Hy.
  destruct (@draw_gaussian_clipped H W C cls x y 0 s)
    as (hm & Hhm & _ & Hget & _);
    try (unfold margin_lo, margin_hi, Int32.in_range, Int32.half; lia).
  exists hm. split; [exact Hhm |]. split.
  - rewrite Hget.
    replace (in_clipped H W cls x y 0 (Z.to_nat y) (Z.to_nat x) (Z.to_nat cls))
      with true.
    2:{ symmetry. unfold in_clipped, margin_lo, margin_hi.
        rewrite !andb_true_iff, !Z.leb_le, !Z.ltb_lt, !Z.eqb_eq. lia. }
    replace (Z.of_nat (Z.to_nat y) - y + 0)%Z with 0%Z by lia.
    replace (Z.of_nat (Z.to_nat x) - x + 0)%Z with 0%Z by lia.
    change (Z.to_nat 0) with 0. rewrite kernel_at_zero. reflexivity.
  - intros i j c Hne. rewrite Hget.
    destruct (in_clipped H W cls x y 0 i j c) eqn:E; [| reflexivity].
    exfalso. apply Hne. unfold in_clipped, margin_lo, margin_hi in E.
    rewrite !andb_true_iff, !Z.leb_le, !Z.ltb_lt, !Z.eqb_eq in E.
    repeat f_equal; lia.
Qed.

Lemma draw_gaussian_radius_zero_writes_nan_witness :
  exists hm : tensor tfloat,
    draw_gaussian [10; 10; 2]%Z [1; 4; 5; 0]%Z 1 = Ok hm /\
    get hm [Z.to_nat 5; Z.to_nat 4; Z.to_nat 1] = NaN /\
    forall i j c : nat,
      [i; j; c] <> [Z.to_nat 5; Z.to_nat 4; Z.to_nat 1] ->
      get hm [i; j; c] = Fin 0.
Proof.
  apply (@draw_gaussian_radius_zero_writes_nan 10 10 2 1 4 5 1); lia.
Defined.

(** X14: when the center is further outside the heatmap than the radius
    reaches ([y < -(r+1)], [y > H + r], [x < -(r+1)] or [x > W + r]),
    [tf.range] gets a limit below its start and [draw_gaussian] raises. *)
Theorem draw_gaussian_far_outside_raises (H W C cls x y r s : Z) :
  (0 <= H < 2 ^ 30)%Z -> (0 <= W < 2 ^ 30)%Z -> (0 <= C)%Z ->
  Int32.in_range cls ->
  (- 2 ^ 30 < x < 2 ^ 30)%Z -> (- 2 ^ 30 < y < 2 ^ 30)%Z ->
  (0 <= r < 2 ^ 30)%Z ->
  (y < - (r + 1) \/ H + r < y \/ x < - (r + 1) \/ W + r < x)%Z ->
  draw_gaussian [H; W; C] [cls; x; y; r] s = Err InvalidRange.
Proof.
  intros HH HW HC Hcls Hx Hy Hr Hout.
  unfold draw_gaussian, draw_gaussian_args, tf_fill.
  cbn [forallb map].
  replace (0 <=? H)%Z with true by (symmetry; apply Z.leb_le; lia).
  replace (0 <=? W)%Z with true by (symmetry; apply Z.leb_le; lia).
  replace (0 <=? C)%Z with true by (symmetry; apply Z.leb_le; lia).
  cbn [andb guard bind].
  rewrite !wrap_id by in_range.
  rewrite !(py_index_ok 0%Z) by (cbn; lia).
  change (Z.to_nat 0) with 0. change (Z.to_nat 1) with 1.
  change (Z.to_nat 2) with 2. change (Z.to_nat 3) with 3.
  cbn [nth bind].
  destruct (gaussian_penalty_ok Hr) as (kern & Hk & Hks & Hkg).
  rewrite Hk. cbn [bind].
  rewrite !(@add_id r 1) by in_range.
  rewrite !(@sub_id H y), !(@sub_id W x) by in_range.
  rewrite !sub_id by in_range.
  rewrite !add_id by in_range.
  unfold tf_reshape, numel, slice2. rewrite Hks. cbn [nth shape].
  rewrite resolve_shape_flat. cbn [bind].
  destruct (Z_lt_le_dec (y + Z.min (H - y) (r + 1)) (y - Z.min y r))
    as [Hrows | Hrows].
  - rewrite (@tf_range_err (y - Z.min y r)) by exact Hrows. reflexivity.
  - rewrite (@tf_range_ok (y - Z.min y r)) by exact Hrows. cbn [bind].
    rewrite (@tf_range_err (x - Z.min x r)) by lia. reflexivity.
Qed.

Lemma draw_gaussian_far_outside_raises_witness :
  draw_gaussian [10; 10; 2]%Z [1; 4; 14; 2]%Z 1 = Err InvalidRange.
Proof.
  apply (@draw_gaussian_far_outside_raises 10 10 2 1 4 14 2 1);
    unfold Int32.in_range, Int32.half; lia.
Defined.

(** ** More on [pad_max_instances] *)

Lemma set_nth_same {A} (n : nat) (d : A) (l : list A) :
  set_nth n (nth n l d) l = l.
Proof.
  revert n. induction l as [| x l IH]; intros [| n]; cbn; try reflexivity.
  now rewrite IH.
Qed.

Lemma Forall_set_nth {A} (P : A -> Prop) (n : nat) (v : A) (l : list A) :
  Forall P l -> P v -> Forall P (set_nth n v l).
Proof.
  intros Hl Hv. revert n.
  induction Hl as [| x l Hx Hl IH]; intros [| n]; cbn; constructor;
    try assumption. apply IH.
Qed.

(** X15: when the axis already has exactly [instances] entries the result
    has the shape and the cells of the input. *)
Theorem pad_max_instances_exact_count_unchanged {A} (value : tensor A)
    (instances : Z) (pad_value : A) (pad_axis : Z) :
  (- Z.of_nat (rank value) <= pad_axis < Z.of_nat (rank value))%Z ->
  Forall (fun d => Int32.in_range (Z.of_nat d)) (shape value) ->
  instances
  = Z.of_nat (nth (axis_of (rank value) pad_axis) (shape value) 0) ->
  exists out : tensor A,
    pad_max_instances value instances pad_value pad_axis = Ok out /\
    shape out = shape value /\
    forall idx : list nat,
      nth (axis_of (rank value) pad_axis) idx 0
      < nth (axis_of (rank value) pad_axis) (shape value) 0 ->
      get out idx = get value idx.
Proof.
  intros Haxis Hdims Hinst.
  pose proof (@dim_int32 A value pad_axis Haxis Hdims) as Hdim.
  rewrite <- Hinst in Hdim.
  destruct (@pad_max_instances_nonneg A value instances pad_value pad_axis
              Haxis Hdims Hdim) as (out & Hout & Hshape & Hget); [lia |].
  exists out. split; [exact Hout |]. split.
  - rewrite Hshape, Hinst, Nat2Z.id. apply set_nth_same.
  - intros idx Hidx. rewrite Hget by lia.
    destruct (Nat.ltb_spec
                (nth (axis_of (rank value) pad_axis) idx 0)
                (nth (axis_of (rank value) pad_axis) (shape value) 0));
      [reflexivity | lia].
Qed.

Lemma pad_max_instances_exact_count_unchanged_witness :
  exists out : tensor Z,
    pad_max_instances (of_list 0%Z [7; 8; 9]%Z) 3 0%Z 0 = Ok out /\
    shape out = shape (of_list 0%Z [7; 8; 9]%Z) /\
    forall idx : list nat,
      nth (axis_of (rank (of_list 0%Z [7; 8; 9]%Z)) 0) idx 0
      < nth (axis_of (rank (of_list 0%Z [7; 8; 9]%Z)) 0)
            (shape (of_list 0%Z [7; 8; 9]%Z)) 0 ->
      get out idx = get (of_list 0%Z [7; 8; 9]%Z) idx.
Proof.
  apply (@pad_max_instances_exact_count_unchanged
           Z (of_list 0%Z [7; 8; 9]%Z) 3 0%Z 0).
  - cbn. lia.
  - repeat constructor; cbn; lia.
  - reflexivity.
Defined.

(** X16: padding the result again to the same count changes neither its
    shape nor its cells. *)
Theorem pad_max_instances_idempotent {A} (value : tensor A) (instances : Z)
    (pad_value : A) (pad_axis : Z) :
  (- Z.of_nat (rank value) <= pad_axis < Z.of_nat (rank value))%Z ->
  Forall (fun d => Int32.in_range (Z.of_nat d)) (shape value) ->
  Int32.in_range instances -> (0 <= instances)%Z ->
  exists once twice : tensor A,
    pad_max_instances value instances pad_value pad_axis = Ok once /\
    pad_max_instances once instances pad_value pad_axis = Ok twice /\
    shape twice = shape once /\
    forall idx : list nat,
      nth (axis_of (rank value) pad_axis) idx 0 < Z.to_nat instances ->
      get twice idx = get once idx.
Proof.
  intros Haxis Hdims Hinst Hpos.
  pose proof (@ax_lt A value pad_axis Haxis) as Hax.
  destruct (@pad_max_instances_nonneg A value instances pad_value pad_axis
              Haxis Hdims Hinst Hpos) as (once & Honce & Hshape & Hget).
  assert (Hrank : rank once = rank value)
    by (unfold rank; rewrite Hshape; apply length_set_nth).
  assert (Haxis' : (- Z.of_nat (rank once) <= pad_axis
                    < Z.of_nat (rank once))%Z) by (rewrite Hrank; exact Haxis).
  assert (Hdims' : Forall (fun d => Int32.in_range (Z.of_nat d)) (shape once)).
  { rewrite Hshape. apply Forall_set_nth; [exact Hdims |].
    now rewrite Z2Nat.id by exact Hpos. }
  destruct (@pad_max_instances_nonneg A once instances pad_value pad_axis
              Haxis' Hdims' Hinst Hpos) as (twice & Htwice & Hshape' & Hget').
  rewrite Hrank in Hshape', Hget'.
  exists once, twice. split; [exact Honce |]. split; [exact Htwice |]. split.
  - rewrite Hshape', Hshape. apply set_nth_set_nth.
  - intros idx Hidx. rewrite Hget' by exact Hidx.
    rewrite Hshape, nth_set_nth_eq by exact Hax.
    destruct (Nat.ltb_spec (nth (axis_of (rank value) pad_axis) idx 0)
                           (Z.to_nat instances)); [reflexivity | lia].
Qed.

Lemma pad_max_instances_idempotent_witness :
  exists once twice : tensor Z,
    pad_max_instances (of_list 0%Z [1; 2]%Z) 5 0%Z 0 = Ok once /\
    pad_max_instances once 5 0%Z 0 = Ok twice /\
    shape twice = shape once /\
    forall idx : list nat,
      nth (axis_of (rank (of_list 0%Z [1; 2]%Z)) 0) idx 0 < Z.to_nat 5 ->
      get twice idx = get once idx.
Proof.
  apply (@pad_max_instances_idempotent Z (of_list 0%Z [1; 2]%Z) 5 0%Z 0).
  - cbn. lia.
  - repeat constructor; cbn; lia.
  - split; cbn; lia.
  - lia.
Defined.

(** X17: an axis [pad_axis >= rank], or any axis on a scalar, fails on the
    indexing of the shape. *)
Theorem pad_max_instances_axis_out_of_range {A} (value : tensor A)
    (instances : Z) (pad_value : A) (pad_axis : Z) :
  (Z.of_nat (rank value) <= pad_axis)%Z \/ rank value = 0 ->
  pad_max_instances value instances pad_value pad_axis
  = Err IndexOutOfBounds.
Proof.
  intros Hax. unfold pad_max_instances, tf_shape.
  rewrite length_map. fold (rank value).
  destruct Hax as [Hge | Hzero].
  - replace (pad_axis <? 0)%Z with false by (symmetry; apply Z.ltb_ge; lia).
    rewrite py_index_err by (rewrite length_map; exact Hge). reflexivity.
  - unfold rank in *. destruct (shape value); [| discriminate].
    cbn [map length Z.of_nat]. unfold py_index. cbn [length Z.of_nat].
    destruct (pad_axis <? 0)%Z eqn:E.
    + apply Z.ltb_lt in E.
      replace (0 + pad_axis <? 0)%Z with true by (symmetry; apply Z.ltb_lt; lia).
      replace (0 <=? 0 + pad_axis + 0)%Z with false
        by (symmetry; apply Z.leb_gt; lia).
      reflexivity.
    + rewrite E. apply Z.ltb_ge in E.
      replace (pad_axis <? 0)%Z with false by (symmetry; apply Z.ltb_ge; lia).
      now rewrite andb_false_r.
Qed.

Lemma pad_max_instances_axis_out_of_range_witness :
  pad_max_instances (of_list 0%Z [1; 2; 3]%Z) 2 0%Z 1 = Err IndexOutOfBounds.
Proof.
  apply pad_max_instances_axis_out_of_range. left. cbn. lia.
Defined.

(** ** More on [get_image_shape] *)

(** X18: a rank-3 image and a batch of such images give the same height
    and width. *)
Theorem get_image_shape_batch_irrelevant {A} (image batched : tensor A)
    (n : nat) :
  rank image = 3 -> shape batched = n :: shape image ->
  exists height width : Z,
    get_image_shape image = Ok (height, width) /\
    get_image_shape batched = Ok (height, width).
Proof.
  unfold rank. intros H3 Hb.
  destruct (shape image) as [| h [| w [| c [| ? ?]]]] eqn:E; try discriminate.
  exists (Z.of_nat h), (Z.of_nat w).
  unfold get_image_shape, tf_shape. rewrite Hb, E. split; reflexivity.
Qed.

Lemma get_image_shape_batch_irrelevant_witness :
  exists height width : Z,
    get_image_shape (mkTensor [5; 7; 3] (fun _ => tt)) = Ok (height, width) /\
    get_image_shape (mkTensor [2; 5; 7; 3] (fun _ => tt))
    = Ok (height, width).
Proof.
  apply (@get_image_shape_batch_irrelevant
           unit (mkTensor [5; 7; 3] (fun _ => tt))
           (mkTensor [2; 5; 7; 3] (fun _ => tt)) 2); reflexivity.
Defined.

(** ** The scatter indices of [draw_gaussian] *)

Lemma NoDup_map_seq {B} (f : nat -> B) (n : nat) :
  (forall a b, a < n -> b < n -> f a = f b -> a = b) ->
  NoDup (map f (seq 0 n)).
Proof.
  intros Hinj. induction n as [| n IH]; [constructor |].
  rewrite seq_S, map_app. cbn [map Nat.add].
  apply NoDup_app.
  - apply IH. intros a b Ha Hb. apply Hinj; lia.
  - constructor; [intros [] | constructor].
  - intros x Hin [<- | []].
    apply in_map_iff in Hin as (a & E & Ha). apply in_seq in Ha.
    assert (a = n) by (apply Hinj; [lia | lia | exact E]). lia.
Qed.

Lemma to_rows_as_row_of (t : tensor Z) :
  to_rows t = map (row_of t) (seq 0 (nth 0 (shape t) 0)).
Proof. reflexivity. Qed.

(** X19: whenever both margin sums are non-negative, the index rows handed
    to the scatter are pairwise distinct, address channel [class] only, lie
    inside the heatmap and within [radius] of the center on both axes. *)
Theorem draw_gaussian_indices_distinct_in_bounds (H W C cls x y r s : Z) :
  (0 <= H < 2 ^ 30)%Z -> (0 <= W < 2 ^ 30)%Z -> (0 <= cls < C)%Z ->
  (C < 2 ^ 31)%Z ->
  (- 2 ^ 30 < x < 2 ^ 30)%Z -> (- 2 ^ 30 < y < 2 ^ 30)%Z ->
  (0 <= r < 2 ^ 30)%Z ->
  (0 <= margin_lo y r + margin_hi H y r)%Z ->
  (0 <= margin_lo x r + margin_hi W x r)%Z ->
  exists args : scatter_args,
    draw_gaussian_args [H; W; C] [cls; x; y; r] s = Ok args /\
    NoDup (to_rows (sc_indices args)) /\
    forall row, In row (to_rows (sc_indices args)) ->
      exists i j : Z,
        row = [i; j; cls] /\ (0 <= i < H)%Z /\ (0 <= j < W)%Z /\
        (Z.abs (i - y) <= r)%Z /\ (Z.abs (j - x) <= r)%Z.
Proof.
  intros HH HW Hcls HC Hx Hy Hr Hrows Hcols.
  destruct (@draw_gaussian_args_ok H W C cls x y r s)
    as (args & Hargs & _ & _ & His & Hig & _ & _);
    try assumption; [lia | unfold Int32.in_range, Int32.half; lia |].
  set (nr := Z.to_nat (margin_lo y r + margin_hi H y r)) in *.
  set (nc := Z.to_nat (margin_lo x r + margin_hi W x r)) in *.
  exists args. split; [exact Hargs |].
  rewrite to_rows_as_row_of, His. cbn [nth]. split.
  - apply NoDup_map_seq. intros a b Ha Hb E.
    rewrite !Hig in E by assumption. injection E as E1 E2.
    assert (Hnc : nc <> 0) by nia.
    rewrite (Nat.div_mod a nc Hnc), (Nat.div_mod b nc Hnc).
    assert (a / nc = b / nc) by lia.
    assert (a mod nc = b mod nc) by lia.
    congruence.
  - intros row Hin. apply in_map_iff in Hin as (k & <- & Hk).
    apply in_seq in Hk. rewrite Hig by lia.
    assert (Hnc : 0 < nc) by nia.
    assert (Hq : k / nc < nr) by (apply Nat.Div0.div_lt_upper_bound; lia).
    assert (Hm : k mod nc < nc) by (apply Nat.mod_upper_bound; lia).
    eexists. eexists. split; [reflexivity |].
    unfold nr, nc, margin_lo, margin_hi in *. lia.
Qed.

Lemma draw_gaussian_indices_distinct_in_bounds_witness :
  exists args : scatter_args,
    draw_gaussian_args [10; 10; 2]%Z [1; 0; 9; 2]%Z 1 = Ok args /\
    NoDup (to_rows (sc_indices args)) /\
    forall row, In row (to_rows (sc_indices args)) ->
      exists i j : Z,
        row = [i; j; 1]%Z /\ (0 <= i < 10)%Z /\ (0 <= j < 10)%Z /\
        (Z.abs (i - 9) <= 2)%Z /\ (Z.abs (j - 0) <= 2)%Z.
Proof.
  apply (@draw_gaussian_indices_distinct_in_bounds 10 10 2 1 0 9 2 1);
    unfold margin_lo, margin_hi; lia.
Defined.
